(** * Premium-transaction report extractor: a shallow embedding of main_anon.py

    The development follows the layers of the program, leaves first:
    the numeric token parser ([parse_amount]), the line pattern
    ([LINE_PATTERN], run by a small backtracking matcher), the page record
    assembler ([extract_page_data]), the document walker ([extract_pdf]) and
    the tabular renderer ([format_amount], [write_csv]).

    Conventions of the embedding.
    - A Python [str] is a [list ascii]: the texts are restricted to code
      points below 256, where Python's Unicode classes are the ones written
      out in [isspace] and [isdigit].  String literals are read through the
      coercion [list_ascii_of_string].
    - A Python [Decimal] is the inductive type [Decimal]: sign, coefficient and
      exponent of a finite number, or one of the special values.  Arithmetic
      runs in Python's default context (precision 28, ROUND_HALF_EVEN,
      Emax 999999, Emin -999999, traps InvalidOperation, DivisionByZero and
      Overflow), which the program never changes.
    - A call that may raise returns a [result]: [Return v] or [Raise e]. *)

From Stdlib Require Import ZArith NArith String Ascii List Lia Bool.
From stdpp Require Import gmap strings.
Import ListNotations.

Local Open Scope Z_scope.

Coercion list_ascii_of_string : string >-> list.

(** ** Exceptions *)

Inductive exn := InvalidOperation | Overflow | IndexError.

Inductive result (A : Type) :=
| Return (a : A)
| Raise (e : exn).
Arguments Return {A} a.
Arguments Raise {A} e.

Global Instance result_ret : MRet result := fun A a => Return a.

Global Instance result_bind : MBind result := fun A B f x =>
  match x with
  | Return a => f a
  | Raise e => Raise e
  end.

(** ** Characters *)

Definition code (c : ascii) : N := N_of_ascii c.

(** [str.isspace] on one character, which is also [\s] of [re] on a [str]
    pattern: TAB, LF, VT, FF, CR, the four separators FS GS RS US, SPACE, NEL
    and NBSP. *)
Definition isspace (c : ascii) : bool :=
  let n := code c in
  ((9 <=? n) && (n <=? 13) || (28 <=? n) && (n <=? 32)
   || (n =? 133) || (n =? 160))%N.

(** [\d] of [re] on a [str] pattern: the decimal digits; below 256 these are
    the ASCII digits only. *)
Definition isdigit (c : ascii) : bool :=
  let n := code c in ((48 <=? n) && (n <=? 57))%N.

Definition digit_val (c : ascii) : N := (code c - 48)%N.

Definition digit_char (d : N) : ascii := ascii_of_N (48 + d).

Definition lower (c : ascii) : ascii :=
  let n := code c in
  if ((65 <=? n) && (n <=? 90))%N then ascii_of_N (n + 32) else c.

Definition ascii_eqb (a b : ascii) : bool := Ascii.eqb a b.

Fixpoint str_eqb (a b : list ascii) : bool :=
  match a, b with
  | [], [] => true
  | x :: a', y :: b' => ascii_eqb x y && str_eqb a' b'
  | _, _ => false
  end.

(** ** String methods used by the program *)

Fixpoint lstrip (s : list ascii) : list ascii :=
  match s with
  | c :: s' => if isspace c then lstrip s' else s
  | [] => []
  end.

Fixpoint rstrip (s : list ascii) : list ascii :=
  match s with
  | [] => []
  | c :: s' =>
      match rstrip s' with
      | [] => if isspace c then [] else [c]
      | r => c :: r
      end
  end.

(** [value.strip()] *)
Definition strip (s : list ascii) : list ascii := rstrip (lstrip s).

(** [value.endswith(suffix)] *)
Definition endswith (s suffix : list ascii) : bool :=
  (length suffix <=? length s)%nat
  && str_eqb (skipn (length s - length suffix) s) suffix.

(** [value[:-2]] *)
Definition drop_last2 (s : list ascii) : list ascii :=
  firstn (length s - 2) s.

(** [value.replace(",", "")] *)
Definition remove_commas (s : list ascii) : list ascii :=
  List.filter (fun c => negb (ascii_eqb c ","%char)) s.

(** The longest prefix of [s] whose characters satisfy [p], and the rest. *)
Fixpoint span (p : ascii -> bool) (s : list ascii) : list ascii * list ascii :=
  match s with
  | c :: s' =>
      if p c then let (a, b) := span p s' in (c :: a, b) else ([], s)
  | [] => ([], [])
  end.

(** ** Decimal numbers

    The numbers of the [decimal] module with the arithmetic of its
    specification: a sign, a coefficient and an exponent, both without
    bound.  The limits of the C implementation (exponents of at most
    eighteen digits, and the memory it can get) are not modelled. *)

Inductive Decimal :=
| Finite (sign : bool) (coeff : N) (exp : Z)
| Infinity (sign : bool)
| NaN (sign : bool) (signaling : bool) (diag : N).

(** [Decimal("0")] *)
Definition Decimal_zero : Decimal := Finite false 0 0.

(** [int(digits)] for a string of decimal digits ([0] for the empty one). *)
Definition digits_to_N (ds : list ascii) : N :=
  fold_left (fun a c => (10 * a + digit_val c)%N) ds 0%N.

(** [str(n)] for a natural number: its decimal digits, most significant
    first.  The fuel is the binary logarithm, which bounds the number of
    divisions by ten. *)
Fixpoint str_of_N_aux (fuel : nat) (n : N) (acc : list ascii) : list ascii :=
  match fuel with
  | O => digit_char n :: acc
  | S f =>
      if (n <? 10)%N then digit_char n :: acc
      else str_of_N_aux f (n / 10) (digit_char (n mod 10) :: acc)
  end.

Definition str_of_N (n : N) : list ascii :=
  str_of_N_aux (N.to_nat (N.log2 n)) n [].

(** [len(self._int)]: the number of digits of the coefficient. *)
Definition ndigits (n : N) : Z := Z.of_nat (length (str_of_N n)).

(** *** The constructor [Decimal(str)]

    The numeric-string grammar of the decimal module: surrounding whitespace
    is removed, underscores are dropped, letters are read without regard to
    case; then an optional sign, and either digits with an optional point and
    an optional exponent (at least one digit), or [Inf]/[Infinity], or
    [NaN]/[sNaN] with optional diagnostic digits.  [None] stands for the
    InvalidOperation (ConversionSyntax) the constructor raises. *)

Definition remove_underscores (s : list ascii) : list ascii :=
  List.filter (fun c => negb (ascii_eqb c "_"%char)) s.

Definition parse_sign (s : list ascii) : bool * list ascii :=
  match s with
  | "-"%char :: r => (true, r)
  | "+"%char :: r => (false, r)
  | _ => (false, s)
  end.

Definition parse_exponent (s : list ascii) : option Z :=
  let (neg, r) := parse_sign s in
  let (ds, rest) := span isdigit r in
  match ds, rest with
  | _ :: _, [] =>
      let e := Z.of_N (digits_to_N ds) in Some (if neg then - e else e)
  | _, _ => None
  end.

Definition parse_number (sign : bool) (s : list ascii) : option Decimal :=
  let (intpart, r1) := span isdigit s in
  let (fracpart, r2) :=
    match r1 with
    | "."%char :: r => span isdigit r
    | _ => ([], r1)
    end in
  match intpart ++ fracpart with
  | [] => None
  | digits =>
      let e0 := - Z.of_nat (length fracpart) in
      match r2 with
      | [] => Some (Finite sign (digits_to_N digits) e0)
      | "e"%char :: r =>
          match parse_exponent r with
          | Some e => Some (Finite sign (digits_to_N digits) (e + e0))
          | None => None
          end
      | _ => None
      end
  end.

Definition parse_diag (s : list ascii) : option N :=
  let (ds, rest) := span isdigit s in
  match rest with
  | [] => Some (digits_to_N ds)
  | _ => None
  end.

Definition parse_special (sign : bool) (s : list ascii) : option Decimal :=
  if str_eqb s "inf" || str_eqb s "infinity" then Some (Infinity sign)
  else
    match s with
    | "n"%char :: "a"%char :: "n"%char :: r =>
        option_map (NaN sign false) (parse_diag r)
    | "s"%char :: "n"%char :: "a"%char :: "n"%char :: r =>
        option_map (NaN sign true) (parse_diag r)
    | _ => None
    end.

Definition Decimal_of_str (value : list ascii) : option Decimal :=
  let s := map lower (remove_underscores (strip value)) in
  let (sign, body) := parse_sign s in
  match parse_number sign body with
  | Some d => Some d
  | None => parse_special sign body
  end.
Arguments Decimal_of_str value%_string.

(** *** The default context and unary minus *)

Definition prec : Z := 28.
Definition Emax : Z := 999999.
Definition Emin : Z := -999999.
Definition Etiny : Z := Emin - prec + 1.
Definition Etop : Z := Emax - prec + 1.

(** ROUND_HALF_EVEN: drop the last [k] digits of [c]. *)
Definition round_half_even (c : N) (k : Z) : N :=
  let p := (10 ^ Z.to_N k)%N in
  let q := (c / p)%N in
  let r := (c mod p)%N in
  if (p <? 2 * r)%N then (q + 1)%N
  else if (2 * r =? p)%N then (if N.odd q then q + 1 else q)%N
  else q.

(** [Decimal._fix] on a finite number in the default context (clamp = 0):
    the number is rounded to at most [prec] digits and its exponent is kept
    within the context's bounds; the only trapped signal it can send is
    Overflow. *)
Definition fix_finite (sign : bool) (c : N) (e : Z) : result Decimal :=
  if (c =? 0)%N then
    Return (Finite sign 0 (Z.min (Z.max e Etiny) Emax))
  else
    let exp_min := ndigits c + e - prec in
    if Etop <? exp_min then Raise Overflow
    else
      let exp_min := Z.max exp_min Etiny in
      if e <? exp_min then
        let c' := round_half_even c (exp_min - e) in
        if prec <? ndigits c' then
          (* the carry produced one digit too many *)
          if Etop <? exp_min + 1 then Raise Overflow
          else Return (Finite sign (c' / 10) (exp_min + 1))
        else Return (Finite sign c' exp_min)
      else Return (Finite sign c e).

(** The payload of a NaN is cut to the precision ([_fix_nan]). *)
Definition fix_nan (sign : bool) (diag : N) : Decimal :=
  NaN sign false
    (if prec <? ndigits diag then (diag mod 10 ^ Z.to_N prec)%N else diag).

(** [-amount] ([Decimal.__neg__]): a signaling NaN raises, a quiet one is
    returned, the negation of a zero is the positive zero, and the result is
    rounded to the context. *)
Definition neg (d : Decimal) : result Decimal :=
  match d with
  | NaN _ true _ => Raise InvalidOperation
  | NaN s false diag => Return (fix_nan s diag)
  | Infinity s => Return (Infinity (negb s))
  | Finite s c e =>
      if (c =? 0)%N then fix_finite false c e else fix_finite (negb s) c e
  end.

(** ** The numeric token parser *)

Definition parse_amount (value : list ascii) : result Decimal :=
  let value := strip value in
  if str_eqb value ".00" then Return Decimal_zero
  else
    let is_credit := endswith value "CR" in
    let value := if is_credit then drop_last2 value else value in
    let value := remove_commas value in
    match Decimal_of_str value with
    | None => Return Decimal_zero
    | Some amount => if is_credit then neg amount else Return amount
    end.
Arguments parse_amount value%_string.

(** ** The formatter *)

(** [amount == 0]: comparing a signaling NaN raises. *)
Definition eq_zero (d : Decimal) : result bool :=
  match d with
  | Finite _ c _ => Return (c =? 0)%N
  | Infinity _ => Return false
  | NaN _ false _ => Return false
  | NaN _ true _ => Raise InvalidOperation
  end.

(** The coefficient of [self._rescale(-2, ROUND_HALF_EVEN)]: the number in
    hundredths, padded with zeros or rounded. *)
Definition rescale2 (c : N) (e : Z) : N :=
  if -2 <=? e then (c * 10 ^ Z.to_N (e + 2))%N
  else round_half_even c (-2 - e).

Definition sign_str (sign : bool) : list ascii :=
  if sign then ["-"%char] else [].

(** The digits of [q] hundredths: integer part, point, two fractional
    digits. *)
Definition fixed2 (sign : bool) (q : N) : list ascii :=
  sign_str sign ++ str_of_N (q / 100)
    ++ "."%char :: [digit_char (q / 10 mod 10); digit_char (q mod 10)].

(** [f"{amount:.2f}"] *)
Definition format_2f (d : Decimal) : list ascii :=
  match d with
  | Finite s c e => fixed2 s (rescale2 c e)
  | Infinity s => sign_str s ++ "Infinity"
  | NaN s signaling diag =>
      sign_str s ++ (if signaling then "sNaN" else "NaN")
        ++ (if (diag =? 0)%N then [] else str_of_N diag)
  end.

Definition format_amount (amount : Decimal) : result (list ascii) :=
  z ← eq_zero amount;
  if (z : bool) then Return (".00" : list ascii) else Return (format_2f amount).

(** ** Regular expressions

    The constructs [LINE_PATTERN] is written with, run by a backtracking
    matcher in continuation-passing style: alternatives in order, greedy
    repetition, the first success wins.  The state is the character before
    the current position (for [^]), the remaining text and the groups closed
    so far. *)

Inductive regex :=
| Bol                            (* ^ under re.MULTILINE *)
| Lit (s : list ascii)           (* literal text *)
| Class (p : ascii -> bool)      (* one character of a class *)
| Plus (p : ascii -> bool)       (* class+ , greedy *)
| Rep (n : nat) (r : regex)      (* r{n} *)
| Seq (r1 r2 : regex)
| Alt (r1 r2 : regex)            (* r1|r2 *)
| Opt (r : regex)                (* r? , greedy *)
| Group (r : regex).             (* (r) , capturing *)

Definition newline : ascii := ascii_of_N 10.

Abbreviation groups := (list (list ascii)).

Definition outcome : Type := list ascii * groups.

Fixpoint lit (l : list ascii) (prev : option ascii) (s : list ascii)
  : option (option ascii * list ascii) :=
  match l with
  | [] => Some (prev, s)
  | a :: l' =>
      match s with
      | c :: s' => if ascii_eqb a c then lit l' (Some c) s' else None
      | [] => None
      end
  end.

(** After one character of the class: take as many more as possible, and
    give characters back one at a time while the continuation fails. *)
Fixpoint plus_tail (p : ascii -> bool) (prev : option ascii) (s : list ascii)
    (k : option ascii -> list ascii -> option outcome) : option outcome :=
  match s with
  | c :: s' =>
      if p c then
        match plus_tail p (Some c) s' k with
        | Some r => Some r
        | None => k prev s
        end
      else k prev s
  | [] => k prev []
  end.

(** [r{n}]: [n] times the matcher [step] of [r], then the continuation. *)
Definition rep_with
    (step : option ascii -> list ascii -> groups ->
            (option ascii -> list ascii -> groups -> option outcome) ->
            option outcome)
    (k : option ascii -> list ascii -> groups -> option outcome)
  : nat -> option ascii -> list ascii -> groups -> option outcome :=
  fix rep (n : nat) prev s caps :=
    match n with
    | O => k prev s caps
    | S n' => step prev s caps (fun pr s' cs => rep n' pr s' cs)
    end.

Fixpoint run (r : regex) (prev : option ascii) (s : list ascii) (caps : groups)
    (k : option ascii -> list ascii -> groups -> option outcome)
    {struct r} : option outcome :=
  match r with
  | Bol =>
      match prev with
      | None => k prev s caps
      | Some c => if ascii_eqb c newline then k prev s caps else None
      end
  | Lit l =>
      match lit l prev s with
      | Some (prev', s') => k prev' s' caps
      | None => None
      end
  | Class p =>
      match s with
      | c :: s' => if p c then k (Some c) s' caps else None
      | [] => None
      end
  | Plus p =>
      match s with
      | c :: s' =>
          if p c then plus_tail p (Some c) s' (fun pr s'' => k pr s'' caps)
          else None
      | [] => None
      end
  | Rep n r' => rep_with (run r') k n prev s caps
  | Seq r1 r2 => run r1 prev s caps (fun pr s' cs => run r2 pr s' cs k)
  | Alt r1 r2 =>
      match run r1 prev s caps k with
      | Some x => Some x
      | None => run r2 prev s caps k
      end
  | Opt r' =>
      match run r' prev s caps k with
      | Some x => Some x
      | None => k prev s caps
      end
  | Group r' =>
      run r' prev s caps
        (fun pr s' cs => k pr s' (cs ++ [firstn (length s - length s') s]))
  end.

(** [pattern.match] at one position: the text after the match and the
    groups. *)
Definition match_at (r : regex) (prev : option ascii) (s : list ascii)
  : option outcome :=
  run r prev s [] (fun _ s' cs => Some (s', cs)).

(** [pattern.finditer(text)]: the matches from left to right, each search
    resuming where the previous match ended.  [skip] counts the characters
    of the current match still to pass. *)
Fixpoint scan (r : regex) (prev : option ascii) (skip : nat) (s : list ascii)
  : list groups :=
  match s with
  | [] =>
      match skip, match_at r prev [] with
      | O, Some (_, cs) => [cs]
      | _, _ => []
      end
  | c :: s' =>
      match skip with
      | S n => scan r (Some c) n s'
      | O =>
          match match_at r prev s with
          | Some (rest, cs) =>
              cs :: scan r (Some c) (length s - length rest - 1) s'
          | None => scan r (Some c) 0 s'
          end
      end
  end.

Definition finditer (r : regex) (text : list ascii) : list groups :=
  scan r None 0 text.

(** ** Configuration *)

Definition PAGES : list (nat * list ascii) :=
  [ (4%nat, "Insurance Division 4" : list ascii);
    (5%nat, "Insurance Division 5" : list ascii);
    (7%nat, "Insurance Division 7" : list ascii);
    (8%nat, "Insurance Division 8" : list ascii);
    (10%nat, "Insurance Division 10" : list ascii);
    (11%nat, "Insurance Division 11" : list ascii) ].

Definition TRANSACTION_TYPES : list (list ascii) :=
  [ "NEW POLICIES" : list ascii; "REWRITES" : list ascii;
    "ADDED PREMIUM" : list ascii; "RETURN PREMIUM" : list ascii;
    "RENEWALS" : list ascii; "CANCELLATIONS" : list ascii ].

Definition CSV_HEADERS : list (list ascii) :=
  [ "Company" : list ascii; "New Policies" : list ascii;
    "Rewrites" : list ascii; "Added Premium" : list ascii;
    "Return Premium" : list ascii; "Renewals" : list ascii;
    "Cancellations" : list ascii ].

(** ['|'.join(labels)] as a pattern *)
Fixpoint alternation (labels : list (list ascii)) : regex :=
  match labels with
  | [] => Lit []
  | [l] => Lit l
  | l :: rest => Alt (Lit l) (alternation rest)
  end.

Definition digit_or_comma (c : ascii) : bool :=
  isdigit c || ascii_eqb c ","%char.

(** [[\d,]+\.\d{2}(?:CR)?] *)
Definition AMOUNT_PATTERN : regex :=
  Seq (Plus digit_or_comma)
    (Seq (Lit ".") (Seq (Rep 2 (Class isdigit)) (Opt (Lit "CR")))).

(** [^(NEW POLICIES|...|CANCELLATIONS)\s+(AMOUNT_PATTERN)], re.MULTILINE *)
Definition LINE_PATTERN : regex :=
  Seq Bol
    (Seq (Group (alternation TRANSACTION_TYPES))
       (Seq (Plus isspace) (Group AMOUNT_PATTERN))).

(** ** The page record assembler *)

Record CompanyData := {
  company : list ascii;
  new_policies : Decimal;
  rewrites : Decimal;
  added_premium : Decimal;
  return_premium : Decimal;
  renewals : Decimal;
  cancellations : Decimal
}.

(** [match.group(n)], for n = 1, 2 *)
Definition group (n : nat) (m : groups) : list ascii := nth (n - 1) m [].

(** The body of the loop over the matches: only the first occurrence of a
    transaction type is stored. *)
Definition record_match (values : gmap (list ascii) Decimal) (m : groups)
  : result (gmap (list ascii) Decimal) :=
  let trans_type := group 1 m in
  let gross := group 2 m in
  match values !! trans_type with
  | Some _ => Return values
  | None =>
      amount ← parse_amount gross;
      Return (<[trans_type := amount]> values)
  end.

Fixpoint collect (ms : list groups) (values : gmap (list ascii) Decimal)
  : result (gmap (list ascii) Decimal) :=
  match ms with
  | [] => Return values
  | m :: ms' => values' ← record_match values m; collect ms' values'
  end.

(** [values.get(key, Decimal("0"))] *)
Definition get (values : gmap (list ascii) Decimal) (key : list ascii)
  : Decimal :=
  default Decimal_zero (values !! key).
Arguments get values key%_string.

(** A page is the result of its [extract_text()]: a text or [None]. *)
Definition page := option (list ascii).

Definition extract_page_data (p : page) (company : list ascii)
  : result (option CompanyData) :=
  match p with
  | None | Some [] => Return None
  | Some text =>
      values ← collect (finditer LINE_PATTERN text) ∅;
      if decide (values = ∅) then Return None
      else
        Return (Some {|
          company := company;
          new_policies := get values "NEW POLICIES";
          rewrites := get values "REWRITES";
          added_premium := get values "ADDED PREMIUM";
          return_premium := get values "RETURN PREMIUM";
          renewals := get values "RENEWALS";
          cancellations := get values "CANCELLATIONS"
        |})
  end.

(** ** The document walker *)

Inductive warning :=
| PageNotInPdf (page_num : nat)
| CouldNotExtract (page_num : nat).

(** The loop of [extract_pdf] over the assignments still to visit, with the
    records appended and the warnings printed so far.  An index outside
    [pdf.pages] would raise; the guard on the page count excludes it for the
    configured assignments. *)
Fixpoint walk (assignments : list (nat * list ascii)) (pages : list page)
    (results : list CompanyData) (printed : list warning)
  : result (list CompanyData * list warning) :=
  match assignments with
  | [] => Return (results, printed)
  | (page_num, company) :: rest =>
      if (length pages <? page_num)%nat then
        walk rest pages results (printed ++ [PageNotInPdf page_num])
      else
        match pages !! (page_num - 1)%nat with
        | None => Raise IndexError
        | Some p =>
            data ← extract_page_data p company;
            match data with
            | Some data => walk rest pages (results ++ [data]) printed
            | None =>
                walk rest pages results (printed ++ [CouldNotExtract page_num])
            end
        end
  end.

Definition extract_pdf (pages : list page)
  : result (list CompanyData * list warning) :=
  walk PAGES pages [] [].

(** ** The tabular renderer *)

Definition quotechar : ascii := ascii_of_N 34.
Definition carriage_return : ascii := ascii_of_N 13.

(** The characters that make [csv.writer] quote a field (excel dialect,
    QUOTE_MINIMAL): the delimiter, the quote character and the characters of
    the line terminator. *)
Definition csv_special (c : ascii) : bool :=
  ascii_eqb c ","%char || ascii_eqb c quotechar
  || ascii_eqb c carriage_return || ascii_eqb c newline.

Definition csv_field (f : list ascii) : list ascii :=
  if existsb csv_special f then
    quotechar
      :: flat_map (fun c => if ascii_eqb c quotechar then [c; c] else [c]) f
      ++ [quotechar]
  else f.

Fixpoint join (sep : list ascii) (fields : list (list ascii)) : list ascii :=
  match fields with
  | [] => []
  | [f] => f
  | f :: rest => f ++ sep ++ join sep rest
  end.

(** [writer.writerow(fields)]: the line written, with its terminator; a row
    made of one empty field is written as a pair of quotes. *)
Definition writerow (fields : list (list ascii)) : list ascii :=
  match fields with
  | [ [] ] => [quotechar; quotechar; carriage_return; newline]
  | _ => join [","%char] (map csv_field fields) ++ [carriage_return; newline]
  end.

Definition row_fields (row : CompanyData) : result (list (list ascii)) :=
  a ← format_amount (new_policies row);
  b ← format_amount (rewrites row);
  c ← format_amount (added_premium row);
  d ← format_amount (return_premium row);
  e ← format_amount (renewals row);
  f ← format_amount (cancellations row);
  Return [company row; a; b; c; d; e; f].

Fixpoint write_rows (data : list CompanyData) : result (list (list ascii)) :=
  match data with
  | [] => Return []
  | row :: rest =>
      fields ← row_fields row;
      lines ← write_rows rest;
      Return (writerow fields :: lines)
  end.

(** [write_csv(data, output_path)]: the rows handed to the writer, header
    first; they are the lines of the file once its directory is there and
    the file is open.  The path and the file system are not modelled. *)
Definition write_csv (data : list CompanyData) : result (list (list ascii)) :=
  lines ← write_rows data;
  Return (writerow CSV_HEADERS :: lines).

(** ** Auxiliary notions for the statements *)

Definition nospace (c : ascii) : bool := negb (isspace c).

(** The characters of a plain decimal numeral: digits and the point. *)
Definition numeral_char (c : ascii) : bool := isdigit c || ascii_eqb c "."%char.

Definition token (body : list ascii) (d1 d2 : ascii) (credit : bool) : list ascii :=
  body ++ "."%char :: d1 :: d2 :: (if credit then ["C"; "R"]%char else []).

(** The amount of the token in hundredths: its digits, commas dropped. *)
Definition token_hundredths (body : list ascii) (d1 d2 : ascii) : N :=
  digits_to_N (remove_commas body ++ [d1; d2]).

(** *** What a pattern denotes

    [denote r prev w gs]: the pattern [r] can match the word [w] when the
    character before it is [prev], closing the groups [gs].  This is the
    textbook reading of the pattern, without the order of the search. *)

(** The character before the position reached after reading [w]. *)
Definition prev_after (prev : option ascii) (w : list ascii) : option ascii :=
  fold_left (fun _ c => Some c) w prev.

Definition rep_denote
    (D : option ascii -> list ascii -> groups -> Prop)
  : nat -> option ascii -> list ascii -> groups -> Prop :=
  fix rep (n : nat) prev w gs :=
    match n with
    | O => w = [] /\ gs = []
    | S n' =>
        exists w1 w2 g1 g2,
          w = w1 ++ w2 /\ gs = g1 ++ g2 /\ D prev w1 g1
          /\ rep n' (prev_after prev w1) w2 g2
    end.

Fixpoint denote (r : regex) (prev : option ascii) (w : list ascii) (gs : groups)
  : Prop :=
  match r with
  | Bol => w = [] /\ gs = [] /\ (prev = None \/ prev = Some newline)
  | Lit l => w = l /\ gs = []
  | Class p => exists c, w = [c] /\ p c = true /\ gs = []
  | Plus p => w <> [] /\ forallb p w = true /\ gs = []
  | Rep n r' => rep_denote (denote r') n prev w gs
  | Seq r1 r2 =>
      exists w1 w2 g1 g2,
        w = w1 ++ w2 /\ gs = g1 ++ g2 /\ denote r1 prev w1 g1
        /\ denote r2 (prev_after prev w1) w2 g2
  | Alt r1 r2 => denote r1 prev w gs \/ denote r2 prev w gs
  | Opt r' => (w = [] /\ gs = []) \/ denote r' prev w gs
  | Group r' => exists g, denote r' prev w g /\ gs = g ++ [w]
  end.

(** What a match of [LINE_PATTERN] at the start of [s] looks like: a label,
    whitespace, an amount token; the groups are the label and the token. *)
Definition line_match (s : list ascii) (m : groups) (rest : list ascii) : Prop :=
  exists label ws body d1 d2 credit,
    In label TRANSACTION_TYPES
    /\ ws <> [] /\ forallb isspace ws = true
    /\ body <> [] /\ forallb digit_or_comma body = true
    /\ isdigit d1 = true /\ isdigit d2 = true
    /\ s = label ++ ws ++ token body d1 d2 credit ++ rest
    /\ m = [label; token body d1 d2 credit].

(** The token of the first match whose label is [label]. *)
Fixpoint first_token (label : list ascii) (ms : list groups)
  : option (list ascii) :=
  match ms with
  | [] => None
  | m :: ms' =>
      if str_eqb (group 1 m) label then Some (group 2 m)
      else first_token label ms'
  end.

(** The amount [parse_amount] returns, if it returns. *)
Definition parsed (tok : list ascii) : option Decimal :=
  match parse_amount tok with
  | Return d => Some d
  | Raise _ => None
  end.

(** The field of a record that belongs to a transaction type. *)
Definition field (label : list ascii) (r : CompanyData) : Decimal :=
  if str_eqb label "NEW POLICIES"%string then new_policies r
  else if str_eqb label "REWRITES"%string then rewrites r
  else if str_eqb label "ADDED PREMIUM"%string then added_premium r
  else if str_eqb label "RETURN PREMIUM"%string then return_premium r
  else if str_eqb label "RENEWALS"%string then renewals r
  else if str_eqb label "CANCELLATIONS"%string then cancellations r
  else Decimal_zero.

(** [a == b] on decimals: equality of the numbers, whatever their exponents;
    a NaN equals nothing. *)
Definition signed (s : bool) (c : N) : Z := if s then - Z.of_N c else Z.of_N c.

Definition Decimal_eqb (a b : Decimal) : bool :=
  match a, b with
  | Finite sa ca ea, Finite sb cb eb =>
      let m := Z.min ea eb in
      signed sa ca * 10 ^ (ea - m) =? signed sb cb * 10 ^ (eb - m)
  | Infinity sa, Infinity sb => Bool.eqb sa sb
  | _, _ => false
  end.

(** The amount an amount token stands for: its digits read as hundredths,
    negative when the token ends in the credit suffix. *)
Definition token_coeff (tok : list ascii) : N :=
  digits_to_N (List.filter isdigit tok).

Definition token_amount (tok : list ascii) : Decimal :=
  Finite (endswith tok "CR") (token_coeff tok) (-2).

(** A page text written line by line. *)
Definition unlines (ls : list (list ascii)) : list ascii :=
  flat_map (fun l => l ++ [newline]) ls.

(** A page whose text has at most a million characters. *)
Definition short_page (p : page) : Prop :=
  forall text, p = Some text -> Z.of_nat (length text) <= 1000000.

(** The record one assignment contributes to the result set, and the warning
    it prints. *)
Definition visit (pages : list page) (a : nat * list ascii) : list CompanyData :=
  if (length pages <? a.1)%nat then []
  else
    match pages !! (a.1 - 1)%nat with
    | Some p =>
        match extract_page_data p a.2 with
        | Return (Some data) => [data]
        | _ => []
        end
    | None => []
    end.

Definition warn (pages : list page) (a : nat * list ascii) : list warning :=
  if (length pages <? a.1)%nat then [PageNotInPdf a.1]
  else
    match pages !! (a.1 - 1)%nat with
    | Some p =>
        match extract_page_data p a.2 with
        | Return None => [CouldNotExtract a.1]
        | _ => []
        end
    | None => []
    end.

(** The record of the tabular output scenario. *)
Definition division4 : CompanyData := {|
  company := "Insurance Division 4";
  new_policies := Finite false 2114900 (-2);
  rewrites := Decimal_zero;
  added_premium := Finite false 150050 (-2);
  return_premium := Finite true 50000 (-2);
  renewals := Finite false 1000000 (-2);
  cancellations := Decimal_zero
|}.

Definition crlf : list ascii := [carriage_return; newline].

(** The documents of the end-to-end scenarios. *)
Definition policy_page : page :=
  Some (unlines [ "NEW POLICIES 1,000.00 150.00 850.00" : list ascii ]).

Definition other_page : page := Some ("Other content" : list ascii).

Definition twelve_pages : list page :=
  [ other_page; other_page; other_page; policy_page; policy_page; other_page;
    policy_page; policy_page; other_page; policy_page; policy_page; other_page ].

(** [q] is [c / p] rounded to the nearest integer, a tie going to the even
    neighbour. *)
Definition nearest_even (c p q : N) : Prop :=
  let d := Z.abs (Z.of_N c - Z.of_N q * Z.of_N p) in
  2 * d <= Z.of_N p /\ (2 * d = Z.of_N p -> N.even q = true).

(** The matcher run on [r] only succeeds through a word [r] denotes. *)
Definition sound_at (r : regex) : Prop :=
  forall prev s caps k out,
    run r prev s caps k = Some out ->
    exists w s' gs,
      s = w ++ s' /\ denote r prev w gs
      /\ k (prev_after prev w) s' (caps ++ gs) = Some out.

(** The matches of [LINE_PATTERN] tried at every position, one after the
    other, without passing over the text of a match. *)
Fixpoint scan_all (prev : option ascii) (s : list ascii) : list groups :=
  match s with
  | [] => []
  | c :: s' =>
      match match_at LINE_PATTERN prev s with
      | Some (_, m) => m :: scan_all (Some c) s'
      | None => scan_all (Some c) s'
      end
  end.

(** A character a label begins with. *)
Definition label_initial (c : ascii) : bool :=
  existsb (fun l => match l with x :: _ => ascii_eqb x c | [] => false end)
    TRANSACTION_TYPES.

Definition not_newline (c : ascii) : bool := negb (ascii_eqb c newline).

Definition not_initial (c : ascii) : bool := negb (label_initial c).

(** No match can begin between [a] and [b]: [a] does not end a line, or [b]
    begins no label. *)
Definition dead_pair (a b : ascii) : bool := not_newline a || not_initial b.

Fixpoint chain (a : ascii) (w : list ascii) : bool :=
  match w with
  | [] => true
  | b :: w' => dead_pair a b && chain b w'
  end.

(** A finite decimal, and a record of finite amounts. *)
Definition is_finite (d : Decimal) : bool :=
  match d with
  | Finite _ _ _ => true
  | _ => false
  end.

Definition record_finite (r : CompanyData) : bool :=
  is_finite (new_policies r) && is_finite (rewrites r)
  && is_finite (added_premium r) && is_finite (return_premium r)
  && is_finite (renewals r) && is_finite (cancellations r).

Definition warning_page (w : warning) : nat :=
  match w with
  | PageNotInPdf n => n
  | CouldNotExtract n => n
  end.

(** ** The console renderer *)

(** The lines [print_data] prints for one record; the first begins with an
    empty line. *)
Definition print_row (row : CompanyData) : result (list (list ascii)) :=
  a ← format_amount (new_policies row);
  b ← format_amount (rewrites row);
  c ← format_amount (added_premium row);
  d ← format_amount (return_premium row);
  e ← format_amount (renewals row);
  f ← format_amount (cancellations row);
  Return [ newline :: ("--- " : list ascii) ++ company row ++ (" ---" : list ascii);
           ("New Policies: " : list ascii) ++ a;
           ("Rewrites: " : list ascii) ++ b;
           ("Added Premium: " : list ascii) ++ c;
           ("Return Premium: " : list ascii) ++ d;
           ("Renewals: " : list ascii) ++ e;
           ("Cancellations: " : list ascii) ++ f ].

Fixpoint print_data (data : list CompanyData) : result (list (list ascii)) :=
  match data with
  | [] => Return []
  | row :: rest =>
      lines ← print_row row;
      more ← print_data rest;
      Return (lines ++ more)
  end.

(** The string a finite amount is rendered by. *)
Definition render (d : Decimal) : list ascii :=
  match d with
  | Finite s c e =>
      if (c =? 0)%N then (".00" : list ascii) else fixed2 s (rescale2 c e)
  | _ => []
  end.

Definition amounts (r : CompanyData) : list Decimal :=
  [ new_policies r; rewrites r; added_premium r; return_premium r;
    renewals r; cancellations r ].

(** The line of the file for a record of finite amounts: the company cell,
    quoted if it must be, then each amount after a comma. *)
Definition row_line (r : CompanyData) : list ascii :=
  csv_field (company r)
    ++ flat_map (fun d => ","%char :: render d) (amounts r) ++ crlf.

(** The seven lines printed for a record of finite amounts. *)
Definition printed_lines (r : CompanyData) : list (list ascii) :=
  [ newline :: ("--- " : list ascii) ++ company r ++ (" ---" : list ascii);
    ("New Policies: " : list ascii) ++ render (new_policies r);
    ("Rewrites: " : list ascii) ++ render (rewrites r);
    ("Added Premium: " : list ascii) ++ render (added_premium r);
    ("Return Premium: " : list ascii) ++ render (return_premium r);
    ("Renewals: " : list ascii) ++ render (renewals r);
    ("Cancellations: " : list ascii) ++ render (cancellations r) ].

(** ** The fixture generator (generate_mock_pdfs.py)

    The generator writes amounts the way the reports do: thousands
    separators, a credit suffix for negatives, [.00] for zero. *)

(** [amount < 0]: an ordering comparison raises on any NaN. *)
Definition lt_zero (d : Decimal) : result bool :=
  match d with
  | Finite s c _ => Return (s && negb (c =? 0)%N)
  | Infinity s => Return s
  | NaN _ _ _ => Raise InvalidOperation
  end.

(** [abs(amount)] ([Decimal.__abs__]), rounded to the context like the unary
    minus it is made of. *)
Definition Decimal_abs (d : Decimal) : result Decimal :=
  match d with
  | NaN _ true _ => Raise InvalidOperation
  | NaN s false diag => Return (fix_nan s diag)
  | Infinity _ => Return (Infinity false)
  | Finite s c e => if s then neg d else fix_finite false c e
  end.

(** Digits from the least significant one, a comma before every fourth. *)
Fixpoint group_from_right (rds : list ascii) (k : nat) : list ascii :=
  match rds with
  | [] => []
  | d :: rest =>
      if (k =? 3)%nat then ","%char :: d :: group_from_right rest 1
      else d :: group_from_right rest (S k)
  end.

(** The thousands separator of the format [,] on the integer digits. *)
Definition group3 (ds : list ascii) : list ascii :=
  rev (group_from_right (rev ds) 0).

(** [f"{amount:,.2f}"] *)
Definition format_grouped (d : Decimal) : list ascii :=
  match d with
  | Finite s c e =>
      let q := rescale2 c e in
      sign_str s ++ group3 (str_of_N (q / 100))
        ++ "."%char :: [digit_char (q / 10 mod 10); digit_char (q mod 10)]
  | _ => format_2f d
  end.

Module generate_mock_pdfs.

Definition format_amount (amount : Decimal) : result (list ascii) :=
  z ← eq_zero amount;
  if (z : bool) then Return (".00" : list ascii)
  else
    negative ← lt_zero amount;
    if (negative : bool) then
      a ← Decimal_abs amount;
      Return (format_grouped a ++ ("CR" : list ascii))
    else Return (format_grouped amount).

(** The two texts [generate_transaction_line] returns: the zero line, and
    the line of the three amounts the function drew and computed. *)
Definition zero_line (trans_type : list ascii) : list ascii :=
  trans_type ++ ("  .00  .00  .00  .00  .00  .00" : list ascii).

Definition data_line (trans_type : list ascii) (gross commission net : Decimal)
  : result (list ascii) :=
  g ← format_amount gross;
  c ← format_amount commission;
  n ← format_amount net;
  Return (trans_type ++ ("  " : list ascii) ++ g ++ ("  " : list ascii) ++ c
            ++ ("  " : list ascii) ++ n ++ ("  .00  .00  .00" : list ascii)).

End generate_mock_pdfs.

(** An amount of whole cents below 10^26: what the generator draws
    ([generate_random_amount]) and computes from it. *)
Definition whole_cents (d : Decimal) : bool :=
  match d with
  | Finite _ c e => (-2 <=? e) && (c * 10 ^ Z.to_N (e + 2) <? 10 ^ 28)%N
  | _ => false
  end.

(** [s.startswith(p)] *)
Fixpoint startswith (s p : list ascii) : bool :=
  match p, s with
  | [], _ => true
  | a :: p', b :: s' => ascii_eqb a b && startswith s' p'
  | _ :: _, [] => false
  end.

(** A line of other text: it begins with no transaction label and stays on
    its line. *)
Definition heading (l : list ascii) : bool :=
  forallb (fun label => negb (startswith l label)) TRANSACTION_TYPES
  && forallb not_newline l.

(** The lines of a page the generator fills with zeros: the zero line of a
    label, or a heading. *)
Definition zero_page_line (l : list ascii) : Prop :=
  heading l = true
  \/ exists label,
       In label TRANSACTION_TYPES /\ l = generate_mock_pdfs.zero_line label.

(** * Properties *)

Example parse_amount_simple : parse_amount "100.50" = Return (Finite false 10050 (-2)).
Proof. reflexivity. Qed.

Example parse_amount_ws : parse_amount "  100.50  " = Return (Finite false 10050 (-2)).
Proof. reflexivity. Qed.

Example parse_amount_big :
  parse_amount "1,234,567.89" = Return (Finite false 123456789 (-2)).
Proof. reflexivity. Qed.

(** ** Characters and strings *)

Lemma ascii_eqb_eq (a b : ascii) : ascii_eqb a b = true <-> a = b.
Proof. unfold ascii_eqb. apply Ascii.eqb_eq. Qed.

Lemma ascii_eqb_refl (a : ascii) : ascii_eqb a a = true.
Proof. by apply ascii_eqb_eq. Qed.

Lemma str_eqb_eq (a b : list ascii) : str_eqb a b = true <-> a = b.
Proof.
  revert b. induction a as [|x a IH]; intros [|y b]; simpl; try easy.
  rewrite andb_true_iff, ascii_eqb_eq, IH. split.
  - by intros [-> ->].
  - by intros [= -> ->].
Qed.

Lemma str_eqb_refl (a : list ascii) : str_eqb a a = true.
Proof. by apply str_eqb_eq. Qed.

Lemma lstrip_nospace (s : list ascii) : forallb nospace s = true -> lstrip s = s.
Proof.
  destruct s as [|c s]; simpl; [done|]. unfold nospace at 1.
  by destruct (isspace c).
Qed.

Lemma rstrip_nospace (s : list ascii) : forallb nospace s = true -> rstrip s = s.
Proof.
  induction s as [|c s IH]; simpl; [done|].
  rewrite andb_true_iff. unfold nospace at 1. intros [Hc Hs].
  rewrite IH by done. destruct s; [|done]. by destruct (isspace c).
Qed.

Lemma strip_nospace (s : list ascii) : forallb nospace s = true -> strip s = s.
Proof.
  intros H. unfold strip. rewrite lstrip_nospace by done. by apply rstrip_nospace.
Qed.

Lemma endswith_app (s suffix : list ascii) : endswith (s ++ suffix) suffix = true.
Proof.
  unfold endswith. rewrite length_app.
  replace (length s + length suffix - length suffix)%nat with (length s) by lia.
  rewrite skipn_app, Nat.sub_diag, skipn_all. simpl.
  rewrite str_eqb_refl, andb_true_r. apply Nat.leb_le. lia.
Qed.

Lemma endswith_last (s suffix : list ascii) (c x : ascii) :
  c <> x -> endswith (s ++ [c]) (suffix ++ [x]) = false.
Proof.
  intros Hne. unfold endswith.
  destruct (length (suffix ++ [x]) <=? length (s ++ [c]))%nat eqn:Hlen; [|done].
  simpl. apply not_true_is_false. rewrite str_eqb_eq. intros Heq.
  apply Nat.leb_le in Hlen. rewrite !length_app in *. simpl in *.
  rewrite skipn_app in Heq.
  replace (length s + 1 - (length suffix + 1) - length s)%nat with 0%nat in Heq by lia.
  simpl in Heq. apply app_inj_tail in Heq as [_ Heq]. done.
Qed.

Lemma drop_last2_app (s : list ascii) (a b : ascii) : drop_last2 (s ++ [a; b]) = s.
Proof.
  unfold drop_last2. rewrite length_app. simpl.
  replace (length s + 2 - 2)%nat with (length s) by lia.
  rewrite firstn_app, Nat.sub_diag, firstn_all. simpl. by rewrite app_nil_r.
Qed.

Lemma remove_commas_app (a b : list ascii) :
  remove_commas (a ++ b) = remove_commas a ++ remove_commas b.
Proof. unfold remove_commas. apply List.filter_app. Qed.

Lemma isdigit_not_comma (c : ascii) : isdigit c = true -> ascii_eqb c ","%char = false.
Proof.
  intros H. apply not_true_is_false. rewrite ascii_eqb_eq. intros ->. done.
Qed.

Lemma remove_commas_digits (s : list ascii) :
  forallb digit_or_comma s = true -> forallb isdigit (remove_commas s) = true.
Proof.
  induction s as [|c s IH]; simpl; [done|].
  rewrite andb_true_iff. intros [Hc Hs]. unfold digit_or_comma in Hc.
  destruct (ascii_eqb c ","%char) eqn:E; simpl; [by apply IH|].
  rewrite orb_false_r in Hc. by rewrite Hc, IH.
Qed.

Lemma span_all (p : ascii -> bool) (ds rest : list ascii) :
  forallb p ds = true ->
  match rest with [] => True | c :: _ => p c = false end ->
  span p (ds ++ rest) = (ds, rest).
Proof.
  intros Hds Hrest. induction ds as [|d ds IH]; simpl in *.
  - destruct rest as [|c rest]; simpl; [done|]. by rewrite Hrest.
  - apply andb_true_iff in Hds as [-> Hds]. by rewrite IH.
Qed.

Lemma filter_id {A} (p : A -> bool) (l : list A) :
  forallb p l = true -> List.filter p l = l.
Proof.
  induction l as [|a l IH]; simpl; [done|].
  rewrite andb_true_iff. intros [-> Hl]. by rewrite IH.
Qed.

Lemma map_id_on {A} (f : A -> A) (p : A -> bool) (l : list A) :
  (forall a, p a = true -> f a = a) -> forallb p l = true -> map f l = l.
Proof.
  intros Hf. induction l as [|a l IH]; simpl; [done|].
  rewrite andb_true_iff. intros [Ha Hl]. by rewrite Hf, IH.
Qed.

Lemma code_inj (a b : ascii) : code a = code b -> a = b.
Proof.
  unfold code. intros H.
  rewrite <- (ascii_N_embedding a), <- (ascii_N_embedding b). by rewrite H.
Qed.

Lemma isdigit_cases (c : ascii) :
  isdigit c = true ->
  In c ["0"; "1"; "2"; "3"; "4"; "5"; "6"; "7"; "8"; "9"]%char.
Proof.
  unfold isdigit. rewrite andb_true_iff, !N.leb_le. intros [H1 H2].
  assert (Hc : In (code c) [48; 49; 50; 51; 52; 53; 54; 55; 56; 57]%N).
  { simpl. lia. }
  simpl in Hc. simpl.
  repeat (destruct Hc as [Hc|Hc];
          [ first [ left; by apply code_inj | right ] | ]); try done;
    repeat (first [ left; by apply code_inj | right ]).
Qed.

Ltac digit_cases H :=
  apply isdigit_cases in H; simpl in H; destruct_or!; try done; subst.

Lemma isdigit_numeral (c : ascii) : isdigit c = true -> numeral_char c = true.
Proof. unfold numeral_char. by intros ->. Qed.

Lemma numeral_nospace (c : ascii) : numeral_char c = true -> nospace c = true.
Proof.
  unfold numeral_char. rewrite orb_true_iff, ascii_eqb_eq.
  intros [H | ->]; [|done]. by digit_cases H.
Qed.

Lemma numeral_lower (c : ascii) : numeral_char c = true -> lower c = c.
Proof.
  unfold numeral_char. rewrite orb_true_iff, ascii_eqb_eq.
  intros [H | ->]; [|done]. by digit_cases H.
Qed.

Lemma numeral_not_underscore (c : ascii) :
  numeral_char c = true -> negb (ascii_eqb c "_"%char) = true.
Proof.
  unfold numeral_char. rewrite orb_true_iff, ascii_eqb_eq.
  intros [H | ->]; [|done]. by digit_cases H.
Qed.

Lemma forallb_impl {A} (p q : A -> bool) (l : list A) :
  (forall a, p a = true -> q a = true) -> forallb p l = true -> forallb q l = true.
Proof.
  intros Hpq. induction l as [|a l IH]; simpl; [done|].
  rewrite !andb_true_iff. intros [Ha Hl]. split; [by apply Hpq | by apply IH].
Qed.

(** ** Numbers and their digits *)

Lemma digit_val_le (c : ascii) : isdigit c = true -> (digit_val c <= 9)%N.
Proof.
  unfold isdigit, digit_val. rewrite andb_true_iff, !N.leb_le. lia.
Qed.

Lemma fold_digits_lt (ds : list ascii) (acc : N) (k : nat) :
  forallb isdigit ds = true -> (acc < 10 ^ N.of_nat k)%N ->
  (fold_left (fun a c => (10 * a + digit_val c)%N) ds acc
   < 10 ^ N.of_nat (k + length ds))%N.
Proof.
  revert acc k. induction ds as [|d ds IH]; intros acc k; simpl.
  - intros _ H. by rewrite Nat.add_0_r.
  - rewrite andb_true_iff. intros [Hd Hds] Hacc.
    replace (k + S (length ds))%nat with (S k + length ds)%nat by lia.
    apply IH; [done|]. apply digit_val_le in Hd.
    rewrite Nat2N.inj_succ, N.pow_succ_r'. lia.
Qed.

Lemma digits_to_N_lt (ds : list ascii) :
  forallb isdigit ds = true -> (digits_to_N ds < 10 ^ N.of_nat (length ds))%N.
Proof.
  intros H. apply (fold_digits_lt ds 0 0 H). simpl. lia.
Qed.

Lemma str_of_N_aux_length (fuel : nat) (n : N) (acc : list ascii) (k : nat) :
  (n < 10 ^ N.of_nat (S k))%N ->
  (length (str_of_N_aux fuel n acc) <= S k + length acc)%nat.
Proof.
  revert n acc k. induction fuel as [|f IH]; intros n acc k Hn; simpl; [lia|].
  destruct (n <? 10)%N eqn:E; simpl; [lia|].
  apply N.ltb_ge in E. destruct k as [|k].
  - simpl in Hn. lia.
  - etrans; [apply (IH _ _ k)|simpl; lia].
    rewrite Nat2N.inj_succ, N.pow_succ_r' in Hn.
    apply N.Div0.div_lt_upper_bound. lia.
Qed.

Lemma ndigits_le (n : N) (k : nat) :
  (n < 10 ^ N.of_nat (S k))%N -> ndigits n <= Z.of_nat (S k).
Proof.
  intros H. unfold ndigits, str_of_N.
  pose proof (str_of_N_aux_length (N.to_nat (N.log2 n)) n [] k H). simpl in *. lia.
Qed.

Lemma ndigits_digits (ds : list ascii) :
  forallb isdigit ds = true -> ds <> [] ->
  ndigits (digits_to_N ds) <= Z.of_nat (length ds).
Proof.
  intros H Hne. destruct ds as [|d ds]; [done|].
  apply ndigits_le. by apply digits_to_N_lt.
Qed.

Lemma ndigits_pos (n : N) : 1 <= ndigits n.
Proof.
  unfold ndigits, str_of_N. generalize (N.to_nat (N.log2 n)) (@nil ascii).
  intros fuel. revert n. induction fuel as [|f IH]; intros n acc; simpl; [lia|].
  destruct (n <? 10)%N; simpl; [lia|]. apply IH.
Qed.

(** ** Unary minus on amounts with two decimals *)

Lemma fix_finite_small (s : bool) (c : N) :
  c <> 0%N -> ndigits c <= prec ->
  fix_finite s c (-2) = Return (Finite s c (-2)).
Proof.
  intros Hc Hn. unfold fix_finite, Etop, Etiny, Emax, Emin, prec in *.
  destruct (c =? 0)%N eqn:E; [by apply N.eqb_eq in E|].
  pose proof (ndigits_pos c).
  destruct (_ <? ndigits c + -2 - 28) eqn:E1; [apply Z.ltb_lt in E1; lia|].
  destruct (-2 <? _) eqn:E2; [apply Z.ltb_lt in E2; lia|]. done.
Qed.

Lemma fix_finite_returns (s : bool) (c : N) :
  ndigits c <= 1000000 -> exists d, fix_finite s c (-2) = Return d.
Proof.
  intros Hn. unfold fix_finite, Etop, Etiny, Emax, Emin, prec in *.
  destruct (c =? 0)%N; [by eexists|].
  destruct (_ <? ndigits c + -2 - 28) eqn:E1; [apply Z.ltb_lt in E1; lia|].
  destruct (-2 <? _) eqn:E2; [|by eexists].
  destruct (28 <? _); [|by eexists].
  destruct (_ <? _ + 1) eqn:E3; [apply Z.ltb_lt in E3; lia|]. by eexists.
Qed.

(** ** Amount tokens

    What [AMOUNT_PATTERN] captures: digits and commas, a point, two digits
    and possibly the credit suffix. *)

Lemma parse_sign_numeral (c : ascii) (s : list ascii) :
  numeral_char c = true -> parse_sign (c :: s) = (false, c :: s).
Proof.
  unfold numeral_char. rewrite orb_true_iff, ascii_eqb_eq.
  intros [H | ->]; [|done]. by digit_cases H.
Qed.

Lemma Decimal_of_str_numeral (ds : list ascii) (d1 d2 : ascii) :
  forallb isdigit ds = true -> isdigit d1 = true -> isdigit d2 = true ->
  Decimal_of_str (ds ++ "."%char :: [d1; d2])%list
  = Some (Finite false (digits_to_N (ds ++ [d1; d2])) (-2)).
Proof.
  intros Hds H1 H2.
  assert (Hnum : forallb numeral_char (ds ++ "."%char :: [d1; d2]) = true).
  { rewrite forallb_app. simpl.
    rewrite (forallb_impl _ _ _ isdigit_numeral Hds).
    by rewrite !isdigit_numeral. }
  unfold Decimal_of_str.
  rewrite strip_nospace by (by apply (forallb_impl _ _ _ numeral_nospace)).
  unfold remove_underscores.
  rewrite filter_id by (by apply (forallb_impl _ _ _ numeral_not_underscore)).
  rewrite (map_id_on lower numeral_char) by (done || apply numeral_lower).
  assert (Hsign : parse_sign (ds ++ "."%char :: [d1; d2])
                  = (false, ds ++ "."%char :: [d1; d2])).
  { destruct ds as [|d ds]; [done|]. simpl in Hds.
    apply andb_true_iff in Hds as [Hd _].
    apply parse_sign_numeral. by apply isdigit_numeral. }
  rewrite Hsign. unfold parse_number.
  rewrite (span_all isdigit ds) by done.
  simpl. rewrite H1, H2. destruct ds as [|d ds]; done.
Qed.

Lemma token_nospace (body : list ascii) (d1 d2 : ascii) (credit : bool) :
  forallb digit_or_comma body = true -> isdigit d1 = true -> isdigit d2 = true ->
  forallb nospace (token body d1 d2 credit) = true.
Proof.
  intros Hb H1 H2. unfold token. rewrite forallb_app. apply andb_true_iff. split.
  - revert Hb. apply forallb_impl. intros c. unfold digit_or_comma.
    rewrite orb_true_iff, ascii_eqb_eq. intros [H | ->]; [|done].
    by apply numeral_nospace, isdigit_numeral.
  - simpl. rewrite !(numeral_nospace _ (isdigit_numeral _ H1)).
    rewrite !(numeral_nospace _ (isdigit_numeral _ H2)). by destruct credit.
Qed.

Lemma token_not_sentinel (body : list ascii) (d1 d2 : ascii) (credit : bool) :
  body <> [] -> forallb digit_or_comma body = true ->
  str_eqb (token body d1 d2 credit) ".00" = false.
Proof.
  intros Hne Hb. destruct body as [|c body]; [done|]. simpl in *.
  apply andb_true_iff in Hb as [Hc _].
  apply andb_false_iff. left. apply not_true_is_false.
  rewrite ascii_eqb_eq. intros ->. done.
Qed.

Lemma token_endswith (body : list ascii) (d1 d2 : ascii) (credit : bool) :
  isdigit d2 = true -> endswith (token body d1 d2 credit) "CR" = credit.
Proof.
  intros H2. unfold token. destruct credit.
  - change (body ++ "."%char :: d1 :: d2 :: ["C"; "R"]%char)
      with (body ++ ["."%char; d1; d2] ++ ["C"; "R"]%char).
    rewrite app_assoc. apply endswith_app.
  - change (body ++ "."%char :: d1 :: [d2]) with (body ++ ["."%char; d1] ++ [d2]).
    rewrite app_assoc. apply (endswith_last _ ["C"%char]).
    intros ->. done.
Qed.

Lemma token_cleaned (body : list ascii) (d1 d2 : ascii) (credit : bool) :
  isdigit d1 = true -> isdigit d2 = true ->
  remove_commas
    (if credit then drop_last2 (token body d1 d2 credit)
     else token body d1 d2 credit)
  = remove_commas body ++ "."%char :: [d1; d2].
Proof.
  intros H1 H2.
  assert (Hplain : remove_commas (body ++ "."%char :: [d1; d2])
                   = remove_commas body ++ "."%char :: [d1; d2]).
  { rewrite remove_commas_app. f_equal. simpl.
    by rewrite !isdigit_not_comma. }
  unfold token. destruct credit; [|done].
  change (body ++ "."%char :: d1 :: d2 :: ["C"; "R"]%char)
    with (body ++ ["."%char; d1; d2] ++ ["C"; "R"]%char).
  by rewrite app_assoc, drop_last2_app.
Qed.

(** The conversion of a token never fails, and the value before the credit
    sign is applied is the token's amount. *)
Lemma token_converts (body : list ascii) (d1 d2 : ascii) (credit : bool) :
  forallb digit_or_comma body = true -> isdigit d1 = true -> isdigit d2 = true ->
  Decimal_of_str
    (remove_commas
       (if credit then drop_last2 (token body d1 d2 credit)
        else token body d1 d2 credit))
  = Some (Finite false (token_hundredths body d1 d2) (-2)).
Proof.
  intros Hb H1 H2. rewrite token_cleaned by done.
  by rewrite Decimal_of_str_numeral by (done || by apply remove_commas_digits).
Qed.

Lemma parse_amount_token (body : list ascii) (d1 d2 : ascii) (credit : bool) :
  body <> [] -> forallb digit_or_comma body = true ->
  isdigit d1 = true -> isdigit d2 = true ->
  parse_amount (token body d1 d2 credit)
  = if credit then neg (Finite false (token_hundredths body d1 d2) (-2))
    else Return (Finite false (token_hundredths body d1 d2) (-2)).
Proof.
  intros Hne Hb H1 H2. unfold parse_amount.
  rewrite strip_nospace by (by apply token_nospace).
  rewrite token_not_sentinel by done.
  rewrite token_endswith by done.
  by rewrite token_converts by done.
Qed.

Lemma token_ndigits (body : list ascii) (d1 d2 : ascii) :
  forallb digit_or_comma body = true -> isdigit d1 = true -> isdigit d2 = true ->
  ndigits (token_hundredths body d1 d2) <= Z.of_nat (length body) + 2.
Proof.
  intros Hb H1 H2. unfold token_hundredths.
  etrans; [apply ndigits_digits|].
  - rewrite forallb_app. simpl. by rewrite remove_commas_digits, H1, H2.
  - by destruct (remove_commas body).
  - rewrite length_app. simpl. unfold remove_commas.
    pose proof (List.filter_length_le
                  (fun c => negb (ascii_eqb c ","%char)) body). lia.
Qed.

(** ** The matcher is sound for the reading of the patterns *)

Lemma prev_after_app (prev : option ascii) (w1 w2 : list ascii) :
  prev_after prev (w1 ++ w2) = prev_after (prev_after prev w1) w2.
Proof. apply fold_left_app. Qed.

Lemma lit_sound (l : list ascii) (prev prev' : option ascii) (s s' : list ascii) :
  lit l prev s = Some (prev', s') -> s = l ++ s' /\ prev' = prev_after prev l.
Proof.
  revert prev s. induction l as [|a l IH]; intros prev s; simpl.
  - by intros [= -> ->].
  - destruct s as [|c s]; [done|].
    destruct (ascii_eqb a c) eqn:E; [|done]. apply ascii_eqb_eq in E as ->.
    intros H. apply IH in H as [-> ->]. done.
Qed.

Lemma plus_tail_sound (p : ascii -> bool) (prev : option ascii) (s : list ascii)
    (k : option ascii -> list ascii -> option outcome) (out : outcome) :
  plus_tail p prev s k = Some out ->
  exists w s', s = w ++ s' /\ forallb p w = true
               /\ k (prev_after prev w) s' = Some out.
Proof.
  revert prev. induction s as [|c s IH]; intros prev; simpl.
  - intros H. by exists [], [].
  - destruct (p c) eqn:Hc; [|intros H; by exists [], (c :: s)].
    destruct (plus_tail p (Some c) s k) eqn:Ht.
    + intros [= ->]. apply IH in Ht as (w & s' & -> & Hw & Hk).
      exists (c :: w), s'. simpl. by rewrite Hc.
    + intros H. by exists [], (c :: s).
Qed.

Lemma rep_with_sound (r : regex) (n : nat) :
  sound_at r ->
  forall prev s caps k out,
    rep_with (run r) k n prev s caps = Some out ->
    exists w s' gs,
      s = w ++ s' /\ rep_denote (denote r) n prev w gs
      /\ k (prev_after prev w) s' (caps ++ gs) = Some out.
Proof.
  intros Hr. induction n as [|n IH]; intros prev s caps k out; simpl.
  - intros H. exists [], s, []. by rewrite app_nil_r.
  - intros H. apply Hr in H as (w1 & s1 & g1 & -> & Hd1 & H).
    apply IH in H as (w2 & s2 & g2 & -> & Hd2 & H).
    exists (w1 ++ w2), s2, (g1 ++ g2).
    split_and!.
    + by rewrite app_assoc.
    + by exists w1, w2, g1, g2.
    + by rewrite prev_after_app, app_assoc.
Qed.

Lemma run_sound (r : regex) : sound_at r.
Proof.
  induction r as [ | l | p | p | n r IH | r1 IH1 r2 IH2 | r1 IH1 r2 IH2 | r IH | r IH ];
    intros prev s caps k out; simpl.
  - (* Bol *)
    intros H. exists [], s, []. rewrite app_nil_r. simpl.
    destruct prev as [c|]; [|split_and!; by auto].
    destruct (ascii_eqb c newline) eqn:E; [|done].
    apply ascii_eqb_eq in E as ->. split_and!; by auto.
  - (* Lit *)
    destruct (lit l prev s) as [[prev' s']|] eqn:E; [|done].
    apply lit_sound in E as [-> ->]. intros H.
    exists l, s', []. by rewrite app_nil_r.
  - (* Class *)
    destruct s as [|c s]; [done|]. destruct (p c) eqn:Hc; [|done]. intros H.
    exists [c], s, []. rewrite app_nil_r. split_and!; [done| |done].
    by exists c.
  - (* Plus *)
    destruct s as [|c s]; [done|]. destruct (p c) eqn:Hc; [|done]. intros H.
    apply plus_tail_sound in H as (w & s' & -> & Hw & H).
    exists (c :: w), s', []. rewrite app_nil_r. simpl. by rewrite Hc.
  - (* Rep *)
    by apply rep_with_sound.
  - (* Seq *)
    intros H. apply IH1 in H as (w1 & s1 & g1 & -> & Hd1 & H).
    apply IH2 in H as (w2 & s2 & g2 & -> & Hd2 & H).
    exists (w1 ++ w2), s2, (g1 ++ g2).
    split_and!.
    + by rewrite app_assoc.
    + by exists w1, w2, g1, g2.
    + by rewrite prev_after_app, app_assoc.
  - (* Alt *)
    destruct (run r1 prev s caps k) eqn:E.
    + intros [= ->]. apply IH1 in E as (w & s' & gs & -> & Hd & H).
      exists w, s', gs. split_and!; by auto.
    + intros H. apply IH2 in H as (w & s' & gs & -> & Hd & H).
      exists w, s', gs. split_and!; by auto.
  - (* Opt *)
    destruct (run r prev s caps k) eqn:E.
    + intros [= ->]. apply IH in E as (w & s' & gs & -> & Hd & H).
      exists w, s', gs. split_and!; by auto.
    + intros H. exists [], s, []. rewrite app_nil_r. split_and!; by auto.
  - (* Group *)
    intros H. apply IH in H as (w & s' & gs & -> & Hd & H).
    rewrite length_app, Nat.add_sub, firstn_app, Nat.sub_diag, firstn_all in H.
    simpl in H. rewrite app_nil_r in H.
    exists w, s', (gs ++ [w]). rewrite app_assoc. split_and!; [done| |done].
    by exists gs.
Qed.


(** ** What [LINE_PATTERN] captures *)

Lemma amount_shape (prev : option ascii) (w : list ascii) (gs : groups) :
  denote AMOUNT_PATTERN prev w gs ->
  exists body d1 d2 credit,
    w = token body d1 d2 credit /\ gs = []
    /\ body <> [] /\ forallb digit_or_comma body = true
    /\ isdigit d1 = true /\ isdigit d2 = true.
Proof.
  unfold AMOUNT_PATTERN. simpl.
  intros (body & b & ga & gb & -> & -> & (Hne & Hbody & ->)
          & (b1 & b2 & g1 & g2 & -> & -> & [-> ->]
             & (c1 & c2 & g3 & g4 & -> & -> & Hrep & Hopt))).
  destruct Hrep as (x1 & x2 & h1 & h2 & -> & -> & (d1 & -> & Hd1 & ->)
                    & (y1 & y2 & h3 & h4 & -> & -> & (d2 & -> & Hd2 & ->)
                       & [-> ->])).
  destruct Hopt as [[-> ->] | [-> ->]].
  - by exists body, d1, d2, false.
  - by exists body, d1, d2, true.
Qed.

Lemma label_shape (prev : option ascii) (w : list ascii) (gs : groups) :
  denote (alternation TRANSACTION_TYPES) prev w gs ->
  In w TRANSACTION_TYPES /\ gs = [].
Proof.
  simpl. intros H. repeat destruct H as [H|H]; destruct H as [-> ->];
    split; simpl; auto 10.
Qed.

Lemma line_shape (prev : option ascii) (s rest : list ascii) (m : groups) :
  match_at LINE_PATTERN prev s = Some (rest, m) -> line_match s m rest.
Proof.
  unfold match_at. intros H.
  apply run_sound in H as (w & s' & gs & -> & Hd & [= -> ->]).
  unfold LINE_PATTERN in Hd. cbn [denote] in Hd.
  destruct Hd as (w1 & w2 & g1 & g2 & -> & -> & (-> & -> & Hbol)
                  & (label & w4 & g3 & g4 & -> & -> & (g & Hlab & ->)
                     & (ws & w6 & g5 & g6 & -> & -> & (Hws & Hfws & ->)
                        & (g' & Hamt & ->)))).
  apply label_shape in Hlab as [Hlab ->].
  apply amount_shape in Hamt
    as (body & d1 & d2 & credit & -> & -> & Hne & Hbody & Hd1 & Hd2).
  exists label, ws, body, d1, d2, credit. simpl.
  split_and!; try done. by rewrite <- !app_assoc.
Qed.

Lemma scan_sound (r : regex) (prev : option ascii) (skip : nat)
    (s : list ascii) (m : groups) :
  In m (scan r prev skip s) ->
  exists prev' s' rest,
    match_at r prev' s' = Some (rest, m) /\ (length s' <= length s)%nat.
Proof.
  revert prev skip. induction s as [|c s IH]; intros prev skip; simpl.
  - destruct skip; [|done].
    destruct (match_at r prev []) as [[rest cs]|] eqn:E; [|done].
    intros [<-|[]]. by exists prev, [], rest.
  - destruct skip as [|n].
    + destruct (match_at r prev (c :: s)) as [[rest cs]|] eqn:E.
      * intros [<-|H]; [by exists prev, (c :: s), rest|].
        apply IH in H as (prev' & s' & rest' & H & Hlen).
        exists prev', s', rest'. split; [done|lia].
      * intros H. apply IH in H as (prev' & s' & rest' & H & Hlen).
        exists prev', s', rest'. split; [done|lia].
    + intros H. apply IH in H as (prev' & s' & rest' & H & Hlen).
      exists prev', s', rest'. split; [done|lia].
Qed.

Lemma finditer_shape (text : list ascii) (m : groups) :
  In m (finditer LINE_PATTERN text) ->
  exists s rest, line_match s m rest /\ (length s <= length text)%nat.
Proof.
  intros H. apply scan_sound in H as (prev & s & rest & H & Hlen).
  exists s, rest. split; [by apply line_shape in H|done].
Qed.

(** ** Parsing what the pattern captured *)

Lemma neg_returns (c : N) :
  ndigits c <= 1000000 -> exists d, neg (Finite false c (-2)) = Return d.
Proof.
  intros H. simpl. destruct (c =? 0)%N; by apply fix_finite_returns.
Qed.

Lemma match_parses (text : list ascii) (m : groups) :
  Z.of_nat (length text) <= 1000000 -> In m (finditer LINE_PATTERN text) ->
  exists d, parse_amount (group 2 m) = Return d.
Proof.
  intros Hlen H. apply finditer_shape in H as (s & rest & Hm & Hs).
  destruct Hm as (label & ws & body & d1 & d2 & credit & Hlab & Hws & Hfws
                  & Hne & Hbody & Hd1 & Hd2 & -> & ->).
  unfold group. simpl. rewrite parse_amount_token by done.
  destruct credit; [|by eexists]. apply neg_returns.
  pose proof (token_ndigits body d1 d2 Hbody Hd1 Hd2).
  unfold token in Hs. rewrite !length_app in Hs. simpl in Hs. lia.
Qed.

(** ** The loop over the matches *)

Lemma str_eqb_neq (a b : list ascii) : a <> b -> str_eqb a b = false.
Proof. intros H. apply not_true_is_false. by rewrite str_eqb_eq. Qed.

Lemma collect_lookup (ms : list groups) (values : gmap (list ascii) Decimal) :
  (forall m, In m ms -> exists d, parse_amount (group 2 m) = Return d) ->
  exists values',
    collect ms values = Return values'
    /\ forall label,
         values' !! label
         = match values !! label with
           | Some d => Some d
           | None => first_token label ms ≫= parsed
           end.
Proof.
  revert values. induction ms as [|m ms IH]; intros values Hparse; simpl.
  - exists values. split; [done|]. intros label. by destruct (values !! label).
  - unfold record_match.
    destruct (values !! group 1 m) as [d0|] eqn:Hm; simpl.
    + destruct (IH values) as (values' & -> & Hl).
      { intros m' Hm'. apply Hparse. by right. }
      exists values'. split; [done|]. intros label. rewrite Hl.
      destruct (values !! label) eqn:E; [done|].
      rewrite str_eqb_neq; [done|]. intros Heq. congruence.
    + destruct (Hparse m) as [d Hd]; [by left|]. rewrite Hd. simpl.
      destruct (IH (<[group 1 m := d]> values)) as (values' & -> & Hl).
      { intros m' Hm'. apply Hparse. by right. }
      exists values'. split; [done|]. intros label. rewrite Hl.
      destruct (decide (group 1 m = label)) as [<-|Hne].
      * rewrite lookup_insert_eq, Hm, str_eqb_refl. simpl.
        unfold parsed. by rewrite Hd.
      * rewrite lookup_insert_ne by done. by rewrite str_eqb_neq.
Qed.

Lemma collect_keeps (ms : list groups) (values values' : gmap (list ascii) Decimal)
    (key : list ascii) :
  collect ms values = Return values' ->
  is_Some (values !! key) -> is_Some (values' !! key).
Proof.
  revert values. induction ms as [|m ms IH]; intros values; simpl.
  - by intros [= ->].
  - unfold record_match. destruct (values !! group 1 m) eqn:Hm; simpl.
    + apply IH.
    + destruct (parse_amount (group 2 m)) as [d|e]; simpl; [|done].
      intros H Hkey. apply (IH _ H).
      destruct (decide (group 1 m = key)) as [<-|Hne].
      * by rewrite lookup_insert_eq.
      * by rewrite lookup_insert_ne.
Qed.

Lemma collect_nonempty (m : groups) (ms : list groups)
    (values' : gmap (list ascii) Decimal) :
  collect (m :: ms) ∅ = Return values' -> values' <> ∅.
Proof.
  simpl. unfold record_match. rewrite lookup_empty.
  destruct (parse_amount (group 2 m)) as [d|e]; simpl; [|done].
  intros H ->. apply (collect_keeps _ _ _ (group 1 m)) in H.
  - rewrite lookup_empty in H. by destruct H.
  - by rewrite lookup_insert_eq.
Qed.

Lemma finditer_nil : finditer LINE_PATTERN [] = [].
Proof. reflexivity. Qed.

Lemma field_get (values : gmap (list ascii) Decimal) (co label : list ascii) :
  In label TRANSACTION_TYPES ->
  field label
    {| company := co;
       new_policies := get values "NEW POLICIES";
       rewrites := get values "REWRITES";
       added_premium := get values "ADDED PREMIUM";
       return_premium := get values "RETURN PREMIUM";
       renewals := get values "RENEWALS";
       cancellations := get values "CANCELLATIONS" |}
  = default Decimal_zero (values !! label).
Proof.
  simpl. intros H. by repeat destruct H as [<-|H].
Qed.

(** A page with at least one match yields a record; each field holds the
    amount of the first match of its label, or zero. *)
Lemma extract_page_data_some (text co : list ascii) :
  Z.of_nat (length text) <= 1000000 ->
  finditer LINE_PATTERN text <> [] ->
  exists r,
    extract_page_data (Some text) co = Return (Some r)
    /\ company r = co
    /\ forall label, In label TRANSACTION_TYPES ->
         field label r
         = default Decimal_zero
             (first_token label (finditer LINE_PATTERN text) ≫= parsed).
Proof.
  intros Hlen Hms.
  destruct (collect_lookup (finditer LINE_PATTERN text) ∅) as (values & Hc & Hl).
  { intros m Hm. by apply (match_parses text). }
  destruct text as [|c text]; [by rewrite finditer_nil in Hms|].
  unfold extract_page_data. rewrite Hc. simpl.
  destruct (finditer LINE_PATTERN (c :: text)) as [|m ms] eqn:E; [done|].
  destruct (decide (values = ∅)) as [->|Hne].
  { by apply collect_nonempty in Hc. }
  eexists. split_and!; [done|done|].
  intros label Hlabel. rewrite field_get by done.
  by rewrite Hl, lookup_empty.
Qed.

(** * The numeric token parser *)

(** C6: the parser on the inputs of the specification.  [.00] is answered
    before the credit and comma steps, also when surrounded by whitespace;
    commas are dropped; a trailing CR is stripped and negates; what is not a
    number gives zero.  The results are the decimals [Decimal("21149.00")],
    [Decimal("-100.00")] and [Decimal("-1500.50")]. *)
Theorem parse_amount_examples :
  parse_amount ".00" = Return Decimal_zero
  /\ (forall value, strip value = ".00"%string ->
        parse_amount value = Return Decimal_zero)
  /\ parse_amount "21,149.00" = Return (Finite false 2114900 (-2))
  /\ Decimal_of_str "21149.00" = Some (Finite false 2114900 (-2))
  /\ parse_amount "100.00CR" = Return (Finite true 10000 (-2))
  /\ Decimal_of_str "-100.00" = Some (Finite true 10000 (-2))
  /\ parse_amount "1,500.50CR" = Return (Finite true 150050 (-2))
  /\ Decimal_of_str "-1500.50" = Some (Finite true 150050 (-2))
  /\ parse_amount "invalid" = Return Decimal_zero
  /\ parse_amount [] = Return Decimal_zero.
Proof.
  split_and!; try reflexivity.
  intros value H. unfold parse_amount. by rewrite H.
Qed.

Lemma parse_amount_examples_witness :
  parse_amount "  .00 " = Return Decimal_zero.
Proof.
  destruct parse_amount_examples as (_ & H & _). apply H. reflexivity.
Defined.

(** C9: the parser is not total.  The fallback covers the conversion only;
    the negation of a credit is outside it, and on a signaling NaN (or on a
    number beyond the exponent range) it raises. *)
Theorem parse_amount_raises :
  parse_amount "sNaNCR" = Raise InvalidOperation
  /\ parse_amount "1e1000000CR" = Raise Overflow.
Proof. split; reflexivity. Qed.

(** What holds of the fallback: a text that is no decimal gives zero, and a
    text without credit suffix never raises. *)
Lemma parse_amount_fallback (value : list ascii) :
  let v := strip value in
  Decimal_of_str
    (remove_commas (if endswith v "CR" then drop_last2 v else v)) = None ->
  parse_amount value = Return Decimal_zero.
Proof.
  cbv zeta. intros H. unfold parse_amount. cbv zeta.
  destruct (str_eqb (strip value) ".00"); [done|]. by rewrite H.
Qed.

Lemma parse_amount_no_credit (value : list ascii) :
  endswith (strip value) "CR" = false -> exists d, parse_amount value = Return d.
Proof.
  intros H. unfold parse_amount. cbv zeta.
  destruct (str_eqb (strip value) ".00"); [by eexists|]. rewrite H.
  destruct (Decimal_of_str _); by eexists.
Qed.

(** ** Amount tokens *)

Lemma filter_digits_body (body : list ascii) :
  forallb digit_or_comma body = true ->
  List.filter isdigit body = remove_commas body.
Proof.
  induction body as [|c body IH]; simpl; [done|].
  rewrite andb_true_iff. unfold digit_or_comma at 1. intros [Hc Hb].
  rewrite IH by done. destruct (isdigit c) eqn:E.
  - by rewrite isdigit_not_comma.
  - simpl in Hc. by rewrite Hc.
Qed.

Lemma token_coeff_token (body : list ascii) (d1 d2 : ascii) (credit : bool) :
  forallb digit_or_comma body = true -> isdigit d1 = true -> isdigit d2 = true ->
  token_coeff (token body d1 d2 credit) = token_hundredths body d1 d2.
Proof.
  intros Hb H1 H2. unfold token_coeff, token, token_hundredths.
  rewrite List.filter_app, filter_digits_body by done. simpl.
  rewrite H1, H2. by destruct credit.
Qed.

Lemma neg_small (c : N) :
  (c < 10 ^ 28)%N ->
  neg (Finite false c (-2)) = Return (Finite (negb (c =? 0)%N) c (-2)).
Proof.
  intros Hc. simpl. destruct (c =? 0)%N eqn:E.
  - apply N.eqb_eq in E as ->. reflexivity.
  - apply N.eqb_neq in E. apply fix_finite_small; [done|].
    by apply (ndigits_le c 27).
Qed.

(** What the parser does on a captured token: for every token the amount
    group of the line pattern captures, the conversion after the credit
    suffix and the commas are removed succeeds, so the fallback is not taken.
    Without credit suffix the amount stored is the token's amount, whatever
    its length; with the suffix it is the negated amount (the positive zero
    for a zero) when the token has at most 28 significant digits. *)
Theorem captured_token_parses (text : list ascii) (m : groups) :
  In m (finditer LINE_PATTERN text) ->
  let tok := group 2 m in
  Decimal_of_str
    (remove_commas (if endswith tok "CR" then drop_last2 tok else tok))
  = Some (Finite false (token_coeff tok) (-2))
  /\ (endswith tok "CR" = false -> parse_amount tok = Return (token_amount tok))
  /\ (endswith tok "CR" = true -> (token_coeff tok < 10 ^ 28)%N ->
      parse_amount tok
      = Return (Finite (negb (token_coeff tok =? 0)%N) (token_coeff tok) (-2))).
Proof.
  intros H. apply finditer_shape in H as (s & rest & Hm & _).
  destruct Hm as (label & ws & body & d1 & d2 & credit & Hlab & Hws & Hfws
                  & Hne & Hbody & Hd1 & Hd2 & -> & ->).
  unfold group. simpl. unfold token_amount.
  rewrite !token_endswith, token_coeff_token, parse_amount_token by done.
  split_and!.
  - by apply token_converts.
  - by intros ->.
  - intros -> Hc. by apply neg_small.
Qed.

Lemma captured_token_parses_witness :
  parse_amount "21,149.00" = Return (Finite false 2114900 (-2)).
Proof.
  refine (proj1 (proj2 (captured_token_parses
            "NEW POLICIES 21,149.00 3,172.35 17,976.65"
            ["NEW POLICIES" : list ascii; "21,149.00" : list ascii] _)) _).
  - vm_compute. left. reflexivity.
  - reflexivity.
Defined.

(** C10: the amount of a long credit token is not the token's value.  A
    credit token of more than 28 significant digits is captured by the
    pattern and converted, and then rounded by the unary minus to the 28
    digits of the context: the amount stored differs from the token's
    amount.  The same digits without the suffix are stored as they are. *)
Theorem credit_token_is_rounded :
  let tok : list ascii := "10000000000000000000000000000.01CR"%string in
  finditer LINE_PATTERN (("NEW POLICIES " : list ascii) ++ tok)
  = [["NEW POLICIES" : list ascii; tok]]
  /\ token_amount tok = Finite true 1000000000000000000000000000001 (-2)
  /\ parse_amount tok = Return (Finite true 1000000000000000000000000000 1)
  /\ Decimal_eqb (Finite true 1000000000000000000000000000 1) (token_amount tok)
     = false
  /\ parse_amount "10000000000000000000000000000.01"
     = Return (Finite false 1000000000000000000000000000001 (-2)).
Proof. vm_compute. done. Qed.

(** * The category line matcher and the page record assembler *)

Lemma first_token_in (label tok : list ascii) (ms : list groups) :
  first_token label ms = Some tok ->
  exists m, In m ms /\ group 1 m = label /\ group 2 m = tok.
Proof.
  induction ms as [|m ms IH]; simpl; [done|].
  destruct (str_eqb (group 1 m) label) eqn:E.
  - apply str_eqb_eq in E. intros [= <-]. exists m. by auto.
  - intros H. apply IH in H as (m' & Hin & H1 & H2). exists m'. by auto.
Qed.

Lemma first_token_app (label : list ascii) (ms1 ms2 : list groups) (m : groups) :
  (forall m', In m' ms1 -> group 1 m' <> label) -> group 1 m = label ->
  first_token label (ms1 ++ m :: ms2) = Some (group 2 m).
Proof.
  intros Hms1 Hm. induction ms1 as [|m1 ms1 IH]; simpl.
  - by rewrite Hm, str_eqb_refl.
  - rewrite str_eqb_neq by (apply Hms1; by left).
    apply IH. intros m' Hin. apply Hms1. by right.
Qed.

Lemma extract_page_data_fields (text co : list ascii) :
  Z.of_nat (length text) <= 1000000 ->
  finditer LINE_PATTERN text <> [] ->
  exists r,
    extract_page_data (Some text) co = Return (Some r)
    /\ company r = co
    /\ forall label, In label TRANSACTION_TYPES ->
         match first_token label (finditer LINE_PATTERN text) with
         | Some tok => parse_amount tok = Return (field label r)
         | None => field label r = Decimal_zero
         end.
Proof.
  intros Hlen Hms.
  destruct (extract_page_data_some text co Hlen Hms) as (r & Hr & Hco & Hf).
  exists r. split_and!; [done|done|].
  intros label Hlabel. rewrite (Hf label Hlabel).
  destruct (first_token label (finditer LINE_PATTERN text)) as [tok|] eqn:E;
    [|done].
  apply first_token_in in E as (m & Hin & _ & <-).
  destruct (match_parses text m Hlen Hin) as [d Hd].
  simpl. unfold parsed. by rewrite Hd.
Qed.

Lemma match_label (text : list ascii) (m : groups) :
  In m (finditer LINE_PATTERN text) -> In (group 1 m) TRANSACTION_TYPES.
Proof.
  intros H. apply finditer_shape in H as (s & rest & Hm & _).
  by destruct Hm as (label & ws & body & d1 & d2 & credit & Hlab & _ & _
                     & _ & _ & _ & _ & _ & ->).
Qed.

(** C1: the test page of the repository whose category lines carry [.00] as
    their first field yields no record: the amount pattern asks for a digit or
    a comma before the point, so no line matches. *)
Theorem zero_sentinel_page_yields_no_record :
  let text := unlines [ "NEW POLICIES .00 .00 .00" : list ascii;
                        "REWRITES .00 .00 .00" : list ascii ] in
  finditer LINE_PATTERN text = []
  /\ extract_page_data (Some text) "Test Company" = Return None.
Proof. split; reflexivity. Qed.

(** The first match of a label wins.  When the matches of a page, in text
    order, are [ms1], then a match of [label] with token [tok], then [ms2],
    and no match of [ms1] has that label, the record holds the amount of
    [tok] in the field of [label], whatever [ms2] contains. *)
Theorem first_occurrence_wins (text co : list ascii) (ms1 ms2 : list groups)
    (label tok : list ascii) :
  Z.of_nat (length text) <= 1000000 ->
  finditer LINE_PATTERN text = ms1 ++ [label; tok] :: ms2 ->
  (forall m, In m ms1 -> group 1 m <> label) ->
  exists r d,
    extract_page_data (Some text) co = Return (Some r)
    /\ parse_amount tok = Return d
    /\ field label r = d.
Proof.
  intros Hlen Hms Hfirst.
  assert (Hlabel : In label TRANSACTION_TYPES).
  { apply (match_label text [label; tok]). rewrite Hms.
    apply in_or_app. right. by left. }
  destruct (extract_page_data_fields text co Hlen) as (r & Hr & _ & Hf).
  { rewrite Hms. by destruct ms1. }
  specialize (Hf label Hlabel). rewrite Hms in Hf.
  rewrite (first_token_app label ms1 ms2 [label; tok]) in Hf by done.
  exists r, (field label r). by auto.
Qed.

Lemma first_occurrence_wins_witness :
  exists r d,
    extract_page_data
      (Some (unlines [ "DIRECT BILLED" : list ascii;
                       "NEW POLICIES 1,000.00 150.00 850.00" : list ascii;
                       "AGENCY BILLED" : list ascii;
                       "NEW POLICIES 2,000.00 300.00 1,700.00" : list ascii ]))
      "Test Company" = Return (Some r)
    /\ parse_amount "1,000.00" = Return d
    /\ field "NEW POLICIES"%string r = d.
Proof.
  apply (first_occurrence_wins _ _ []
           [["NEW POLICIES" : list ascii; "2,000.00" : list ascii]]).
  - vm_compute. discriminate.
  - reflexivity.
  - intros m [].
Defined.

(** C2: the first occurrence does not always win.  On a page where the
    label begins a line of the first section with the zero [.00] and a line
    of a later section with another amount, the only match is the later
    line, and the record holds the later amount, not the zero of the first
    occurrence. *)
Theorem later_occurrence_wins_after_zero_line :
  let text := unlines [ "DIRECT BILLED" : list ascii;
                        "NEW POLICIES .00 .00 .00" : list ascii;
                        "AGENCY BILLED" : list ascii;
                        "NEW POLICIES 2,000.00 300.00 1,700.00" : list ascii ] in
  finditer LINE_PATTERN text
  = [["NEW POLICIES" : list ascii; "2,000.00" : list ascii]]
  /\ parse_amount ".00" = Return Decimal_zero
  /\ extract_page_data (Some text) "Test Company"
     = Return (Some {| company := "Test Company";
                       new_policies := Finite false 200000 (-2);
                       rewrites := Decimal_zero;
                       added_premium := Decimal_zero;
                       return_premium := Decimal_zero;
                       renewals := Decimal_zero;
                       cancellations := Decimal_zero |}).
Proof. split_and!; reflexivity. Qed.

(** C3: the assembler returns no record exactly when the page has no text or
    no line matched; when a line matched it returns a record with the
    company, where the field of each label holds the amount of the first
    match of that label, and zero when the label has no match. *)
Theorem extract_page_data_spec (p : page) (co : list ascii) :
  (extract_page_data p co = Return None
   <-> p = None \/ p = Some []
       \/ exists text, p = Some text /\ finditer LINE_PATTERN text = [])
  /\ forall text,
       p = Some text -> Z.of_nat (length text) <= 1000000 ->
       finditer LINE_PATTERN text <> [] ->
       exists r,
         extract_page_data p co = Return (Some r)
         /\ company r = co
         /\ forall label, In label TRANSACTION_TYPES ->
              match first_token label (finditer LINE_PATTERN text) with
              | Some tok => parse_amount tok = Return (field label r)
              | None => field label r = Decimal_zero
              end.
Proof.
  split.
  - split.
    + destruct p as [[|c text]|]; [by auto| |by auto].
      intros H. right. right. exists (c :: text). split; [done|].
      unfold extract_page_data in H.
      destruct (collect (finditer LINE_PATTERN (c :: text)) ∅)
        as [values|e] eqn:E; simpl in H; [|done].
      destruct (decide (values = ∅)) as [->|Hne]; [|done].
      destruct (finditer LINE_PATTERN (c :: text)) as [|m ms]; [done|].
      by apply collect_nonempty in E.
    + intros [->|[->|(text & -> & H)]]; [done|done|].
      destruct text as [|c text]; [done|].
      unfold extract_page_data. rewrite H. simpl.
      by destruct (decide _).
  - intros text -> Hlen Hms. by apply extract_page_data_fields.
Qed.

Lemma extract_page_data_spec_witness :
  exists r,
    extract_page_data
      (Some (unlines [ "NEW POLICIES 21,149.00 3,172.35 17,976.65" : list ascii;
                       "RETURN PREMIUM 1,500.00CR 225.00CR" : list ascii ]))
      "Test Company" = Return (Some r)
    /\ parse_amount "21,149.00" = Return (new_policies r)
    /\ parse_amount "1,500.00CR" = Return (return_premium r)
    /\ rewrites r = Decimal_zero /\ added_premium r = Decimal_zero
    /\ renewals r = Decimal_zero /\ cancellations r = Decimal_zero.
Proof.
  destruct (extract_page_data_spec
              (Some (unlines [ "NEW POLICIES 21,149.00 3,172.35 17,976.65" : list ascii;
                               "RETURN PREMIUM 1,500.00CR 225.00CR" : list ascii ]))
              "Test Company") as [_ H].
  destruct (H _ eq_refl) as (r & Hr & _ & Hf).
  - vm_compute. discriminate.
  - vm_compute. discriminate.
  - exists r. split; [exact Hr|].
    split; [apply (Hf "NEW POLICIES"%string); simpl; tauto|].
    split; [apply (Hf "RETURN PREMIUM"%string); simpl; tauto|].
    split; [apply (Hf "REWRITES"%string); simpl; tauto|].
    split; [apply (Hf "ADDED PREMIUM"%string); simpl; tauto|].
    split; [apply (Hf "RENEWALS"%string); simpl; tauto|].
    apply (Hf "CANCELLATIONS"%string); simpl; tauto.
Defined.

(** * The document walker *)

Lemma extract_page_data_company (p : page) (co : list ascii) (d : CompanyData) :
  extract_page_data p co = Return (Some d) -> company d = co.
Proof.
  destruct p as [[|c text]|]; [done| |done]. unfold extract_page_data.
  destruct (collect _ ∅) as [values|e]; simpl; [|done].
  destruct (decide (values = ∅)); [done|]. by intros [= <-].
Qed.

Lemma extract_page_data_returns (p : page) (co : list ascii) :
  short_page p -> exists o, extract_page_data p co = Return o.
Proof.
  intros Hp. destruct p as [text|]; [|by eexists].
  destruct (finditer LINE_PATTERN text) as [|m ms] eqn:E.
  - destruct text as [|c text]; [by eexists|].
    unfold extract_page_data. rewrite E. simpl. by eexists.
  - destruct (extract_page_data_some text co) as (r & Hr & _).
    + by apply Hp.
    + by rewrite E.
    + by eexists.
Qed.

Lemma walk_cons (page_num : nat) (co : list ascii)
    (rest : list (nat * list ascii)) (pages : list page)
    (results : list CompanyData) (printed : list warning) :
  walk ((page_num, co) :: rest) pages results printed
  = if (length pages <? page_num)%nat then
      walk rest pages results (printed ++ [PageNotInPdf page_num])
    else
      match pages !! (page_num - 1)%nat with
      | None => Raise IndexError
      | Some p =>
          data ← extract_page_data p co;
          match data with
          | Some data => walk rest pages (results ++ [data]) printed
          | None =>
              walk rest pages results (printed ++ [CouldNotExtract page_num])
          end
      end.
Proof. reflexivity. Qed.

(** The loop appends, in the order of the assignments, what each assignment
    contributes. *)
Lemma walk_spec (assignments : list (nat * list ascii)) (pages : list page)
    (results : list CompanyData) (printed : list warning) :
  Forall short_page pages ->
  (forall a, In a assignments -> (1 <= a.1)%nat) ->
  walk assignments pages results printed
  = Return (results ++ flat_map (visit pages) assignments,
            printed ++ flat_map (warn pages) assignments).
Proof.
  intros Hpages. revert results printed.
  induction assignments as [|[n co] rest IH]; intros results printed Hpos.
  - simpl. by rewrite !app_nil_r.
  - rewrite walk_cons. cbn [flat_map]. unfold visit at 1, warn at 1. simpl.
    assert (Hrest : forall a, In a rest -> (1 <= a.1)%nat).
    { intros a Ha. apply Hpos. by right. }
    destruct (length pages <? n)%nat eqn:E.
    + rewrite IH by done. simpl. by rewrite <- app_assoc.
    + apply Nat.ltb_ge in E. specialize (Hpos (n, co) (or_introl eq_refl)).
      simpl in Hpos.
      destruct (pages !! (n - 1)%nat) as [p|] eqn:Hp.
      2:{ apply lookup_ge_None in Hp. lia. }
      destruct (extract_page_data_returns p co) as [o Ho].
      { by apply (Forall_lookup_1 _ _ _ _ Hpages Hp). }
      rewrite Ho. simpl. destruct o as [d|]; rewrite IH by done; simpl.
      * by rewrite <- app_assoc.
      * by rewrite <- app_assoc.
Qed.

Lemma visit_sublist (pages : list page) (assignments : list (nat * list ascii)) :
  sublist (map company (flat_map (visit pages) assignments))
          (map snd assignments).
Proof.
  induction assignments as [|[n co] rest IH]; simpl; [constructor|].
  unfold visit at 1. simpl.
  destruct (length pages <? n)%nat; [by apply sublist_cons|].
  destruct (pages !! (n - 1)%nat) as [p|]; [|by apply sublist_cons].
  destruct (extract_page_data p co) as [[d|]|e] eqn:E;
    try by apply sublist_cons.
  simpl. rewrite (extract_page_data_company _ _ _ E). by apply sublist_skip.
Qed.

(** The walk reads the page count and the pages of the assignments only. *)
Lemma walk_ext (assignments : list (nat * list ascii)) (pages pages' : list page)
    (results : list CompanyData) (printed : list warning) :
  length pages = length pages' ->
  (forall a, In a assignments -> pages !! (a.1 - 1)%nat = pages' !! (a.1 - 1)%nat) ->
  walk assignments pages results printed
  = walk assignments pages' results printed.
Proof.
  intros Hlen. revert results printed.
  induction assignments as [|[n co] rest IH]; intros results printed Hsame;
    [done|].
  rewrite !walk_cons, <- Hlen.
  pose proof (Hsame (n, co) (or_introl eq_refl)) as Hn. simpl in Hn.
  rewrite <- Hn.
  assert (Hrest : forall a, In a rest ->
                    pages !! (a.1 - 1)%nat = pages' !! (a.1 - 1)%nat).
  { intros a Ha. apply Hsame. by right. }
  destruct (length pages <? n)%nat; [by apply IH|].
  destruct (pages !! (n - 1)%nat) as [p|]; [|done].
  destruct (extract_page_data p co) as [[d|]|e]; simpl; [by apply IH..|done].
Qed.

(** C4: the walker goes through the six assignments in the configured order
    (pages 4, 5, 7, 8, 10, 11).  On a document of short pages it returns; the
    result set is what the assignments contribute, in that order, at most
    one record each, so the companies of the records are a subsequence of the
    configured companies; an assignment beyond the page count prints its
    warning and contributes no record.  A page that is not assigned (such as
    6, 9 and 12) is never read: replacing it changes nothing. *)
Theorem extract_pdf_spec :
  map fst PAGES = [4; 5; 7; 8; 10; 11]%nat
  /\ (forall pages, Forall short_page pages ->
        exists results printed,
          extract_pdf pages = Return (results, printed)
          /\ results = flat_map (visit pages) PAGES
          /\ sublist (map company results) (map snd PAGES)
          /\ forall n co, In (n, co) PAGES -> (length pages < n)%nat ->
               In (PageNotInPdf n) printed /\ visit pages (n, co) = [])
  /\ (forall (pages : list page) (i : nat) (q : page),
        ~ In (S i) (map fst PAGES) ->
        extract_pdf (<[i := q]> pages) = extract_pdf pages).
Proof.
  split_and!.
  - reflexivity.
  - intros pages Hpages.
    exists (flat_map (visit pages) PAGES), (flat_map (warn pages) PAGES).
    split_and!.
    + unfold extract_pdf. rewrite walk_spec; [done|done|].
      intros a Ha. simpl in Ha. destruct_or!; subst; simpl; lia.
    + done.
    + apply visit_sublist.
    + intros n co Hin Hlen. apply Nat.ltb_lt in Hlen. split.
      * apply in_flat_map. exists (n, co). split; [done|].
        unfold warn. simpl. rewrite Hlen. by left.
      * unfold visit. simpl. by rewrite Hlen.
  - intros pages i q Hi. unfold extract_pdf.
    apply walk_ext; [by rewrite length_insert|].
    intros [n co] Ha. simpl. apply list_lookup_insert_ne.
    intros ->. apply Hi. simpl in Ha |- *.
    destruct_or!; try done; inversion Ha; subst; simpl; auto 10.
Qed.

Lemma extract_pdf_spec_witness :
  (exists results printed,
     extract_pdf twelve_pages = Return (results, printed)
     /\ map company results = map snd PAGES
     /\ map new_policies results = repeat (Finite false 100000 (-2)) 6)
  /\ (exists results printed,
        extract_pdf [other_page] = Return (results, printed)
        /\ results = []
        /\ forall n co, In (n, co) PAGES -> In (PageNotInPdf n) printed).
Proof.
  split.
  - destruct (proj1 (proj2 extract_pdf_spec) twelve_pages)
      as (results & printed & H & Hr & _).
    { repeat constructor; intros text [= <-]; vm_compute; discriminate. }
    exists results, printed. split; [exact H|]. subst results.
    split; reflexivity.
  - destruct (proj1 (proj2 extract_pdf_spec) [other_page])
      as (results & printed & H & Hr & _ & Hw).
    { repeat constructor; intros text [= <-]; vm_compute; discriminate. }
    exists results, printed. split; [exact H|]. split; [by subst results|].
    intros n co Hin. apply (Hw n co Hin).
    simpl in Hin. destruct_or!; try done; inversion Hin; simpl; lia.
Defined.

(** * The tabular renderer *)

(** C5, as amended: for the record of the scenario the renderer writes two
    lines, the header and the data row, each ended by CR LF; the columns of
    the header are separated by a comma alone, as those of the data row. *)
Theorem write_csv_division4 :
  write_csv [division4]
  = Return
      [ ("Company,New Policies,Rewrites,Added Premium,Return Premium,Renewals,Cancellations"
           : list ascii) ++ crlf;
        ("Insurance Division 4,21149.00,.00,1500.50,-500.00,10000.00,.00"
           : list ascii) ++ crlf ].
Proof. reflexivity. Qed.

(** C5, as stated, fails: the header written is not the literal with a space
    after each comma. *)
Lemma write_csv_header_has_no_spaces :
  write_csv [division4]
  <> Return
       [ ("Company, New Policies, Rewrites, Added Premium, Return Premium, Renewals, Cancellations"
            : list ascii) ++ crlf;
         ("Insurance Division 4,21149.00,.00,1500.50,-500.00,10000.00,.00"
            : list ascii) ++ crlf ].
Proof. vm_compute. discriminate. Qed.

(** ** Digits of the output *)

Lemma digit_char_isdigit (d : N) : (d < 10)%N -> isdigit (digit_char d) = true.
Proof.
  intros H.
  assert (Hd : In d [0; 1; 2; 3; 4; 5; 6; 7; 8; 9]%N) by (simpl; lia).
  simpl in Hd. by destruct_or!; subst.
Qed.

Lemma str_of_N_aux_digits (fuel : nat) (n : N) (acc : list ascii) :
  (n < 2 ^ N.of_nat (S fuel))%N -> forallb isdigit acc = true ->
  forallb isdigit (str_of_N_aux fuel n acc) = true.
Proof.
  revert n acc. induction fuel as [|f IH]; intros n acc Hn Hacc; simpl.
  - change (2 ^ N.of_nat 1)%N with 2%N in Hn.
    rewrite digit_char_isdigit by lia. done.
  - destruct (n <? 10)%N eqn:E.
    + apply N.ltb_lt in E. simpl. by rewrite digit_char_isdigit.
    + apply IH.
      * rewrite Nat2N.inj_succ, N.pow_succ_r' in Hn.
        apply N.Div0.div_lt_upper_bound. lia.
      * simpl. rewrite digit_char_isdigit; [done|].
        apply N.mod_lt. lia.
Qed.

Lemma str_of_N_digits (n : N) : forallb isdigit (str_of_N n) = true.
Proof.
  unfold str_of_N. apply str_of_N_aux_digits; [|done].
  rewrite Nat2N.inj_succ, N2Nat.id.
  destruct (N.eq_dec n 0%N) as [->|Hn]; [done|].
  apply N.log2_spec. lia.
Qed.

Lemma str_of_N_nonempty (n : N) : str_of_N n <> [].
Proof.
  pose proof (ndigits_pos n) as H. unfold ndigits in H.
  by destruct (str_of_N n).
Qed.

(** ** Rounding to hundredths *)

Lemma round_half_even_nearest (c : N) (k : Z) :
  nearest_even c (10 ^ Z.to_N k) (round_half_even c k).
Proof.
  unfold nearest_even, round_half_even. cbv zeta.
  set (p := (10 ^ Z.to_N k)%N).
  assert (Hp : (0 < p)%N) by (subst p; apply N.neq_0_lt_0, N.pow_nonzero; lia).
  pose proof (N.div_mod c p ltac:(lia)) as Hdiv.
  pose proof (N.mod_lt c p ltac:(lia)) as Hmod.
  set (q := (c / p)%N) in *. set (r := (c mod p)%N) in *.
  assert (Hc : Z.of_N c = Z.of_N p * Z.of_N q + Z.of_N r) by lia.
  destruct (p <? 2 * r)%N eqn:E1.
  - apply N.ltb_lt in E1. rewrite N2Z.inj_add. split; nia.
  - apply N.ltb_ge in E1. destruct (2 * r =? p)%N eqn:E2.
    + apply N.eqb_eq in E2. destruct (N.odd q) eqn:E3.
      * split; [rewrite N2Z.inj_add; nia|]. intros _.
        rewrite N.add_1_r, N.even_succ. done.
      * split; [nia|]. intros _. by rewrite <- N.negb_odd, E3.
    + apply N.eqb_neq in E2. split; nia.
Qed.

(** ** The digits of the output read as a number *)

Lemma digit_val_char (d : N) : (d < 10)%N -> digit_val (digit_char d) = d.
Proof.
  intros H.
  assert (Hd : In d [0; 1; 2; 3; 4; 5; 6; 7; 8; 9]%N) by (simpl; lia).
  simpl in Hd. by destruct_or!; subst.
Qed.

Lemma str_of_N_aux_value (fuel : nat) (n : N) (acc : list ascii) :
  (n < 2 ^ N.of_nat (S fuel))%N ->
  fold_left (fun a c => (10 * a + digit_val c)%N) (str_of_N_aux fuel n acc) 0%N
  = fold_left (fun a c => (10 * a + digit_val c)%N) acc n.
Proof.
  revert n acc. induction fuel as [|f IH]; intros n acc Hn; simpl.
  - change (2 ^ N.of_nat 1)%N with 2%N in Hn. by rewrite digit_val_char by lia.
  - destruct (n <? 10)%N eqn:E.
    + apply N.ltb_lt in E. simpl. by rewrite digit_val_char.
    + apply N.ltb_ge in E. rewrite IH.
      * simpl. rewrite digit_val_char by (apply N.mod_lt; lia).
        f_equal. pose proof (N.div_mod n 10). lia.
      * rewrite Nat2N.inj_succ, N.pow_succ_r' in Hn.
        apply N.Div0.div_lt_upper_bound. lia.
Qed.

(** The digits printed for a number read back as that number. *)
Lemma str_of_N_value (n : N) : digits_to_N (str_of_N n) = n.
Proof.
  unfold digits_to_N, str_of_N. rewrite str_of_N_aux_value; [done|].
  rewrite Nat2N.inj_succ, N2Nat.id.
  destruct (N.eq_dec n 0%N) as [->|Hn]; [done|].
  apply N.log2_spec. lia.
Qed.

Lemma digits_to_N_app2 (ds : list ascii) (a b : ascii) :
  digits_to_N (ds ++ [a; b])
  = (100 * digits_to_N ds + 10 * digit_val a + digit_val b)%N.
Proof. unfold digits_to_N. rewrite fold_left_app. simpl. lia. Qed.

Lemma hundredths_digits (q : N) :
  digits_to_N (str_of_N (q / 100)
                 ++ [digit_char (q / 10 mod 10); digit_char (q mod 10)]) = q.
Proof.
  rewrite digits_to_N_app2, str_of_N_value.
  rewrite !digit_val_char by (apply N.mod_lt; lia).
  pose proof (N.div_mod q 10). pose proof (N.div_mod (q / 10) 10).
  replace (q / 100)%N with (q / 10 / 10)%N by (rewrite N.Div0.div_div; done).
  lia.
Qed.

Lemma str_of_N_canonical (n : N) (rest : list ascii) :
  str_of_N n = "0"%char :: rest -> rest = [].
Proof.
  intros H. destruct rest as [|d rest]; [done|]. exfalso.
  pose proof (str_of_N_value n) as Hv. pose proof (str_of_N_digits n) as Hd.
  rewrite H in Hv, Hd.
  change (digits_to_N ("0"%char :: d :: rest)) with (digits_to_N (d :: rest)) in Hv.
  cbn [forallb] in Hd. apply andb_true_iff in Hd as [_ Hd].
  pose proof (digits_to_N_lt (d :: rest) Hd) as Hlt. rewrite Hv in Hlt.
  pose proof (ndigits_le n (length rest)) as Hn.
  unfold ndigits in Hn. rewrite H in Hn. cbn [length] in *.
  apply Hn in Hlt. lia.
Qed.

Lemma format_amount_nonzero (s : bool) (c : N) (e : Z) :
  c <> 0%N -> format_amount (Finite s c e) = Return (fixed2 s (rescale2 c e)).
Proof.
  intros Hc. unfold format_amount. simpl.
  by destruct (c =? 0)%N eqn:E; [apply N.eqb_eq in E|].
Qed.

(** C7: a zero, whatever its sign and exponent (so also 5.00 - 5.00, which
    is the zero of exponent -2, and the negative zero), is rendered [.00]; a
    number other than zero is rendered as a minus sign when it is negative,
    an integer part without leading zero, a point and two digits, and never
    ends in CR.  The digits are those of the amount: read as a number of
    hundredths they are the amount itself when it has at most two fractional
    digits, and the amount rounded to the nearest hundredth, a tie going to
    the even one, when it has more.  The second part is stated for amounts
    of at most a million digits before the point. *)
Theorem format_amount_spec (s : bool) (c : N) (e : Z) :
  (c = 0%N -> format_amount (Finite s c e) = Return (".00" : list ascii))
  /\ (c <> 0%N -> ndigits c + e <= 1000000 ->
      exists ip d1 d2,
        format_amount (Finite s c e)
        = Return ((if s then ["-"%char] else []) ++ ip ++ "."%char :: [d1; d2])
        /\ ip <> [] /\ forallb isdigit ip = true
        /\ (forall rest, ip = "0"%char :: rest -> rest = [])
        /\ isdigit d1 = true /\ isdigit d2 = true
        /\ endswith ((if s then ["-"%char] else []) ++ ip ++ "."%char :: [d1; d2])
             "CR" = false
        /\ (-2 <= e ->
            digits_to_N (ip ++ [d1; d2]) = (c * 10 ^ Z.to_N (e + 2))%N)
        /\ (e < -2 ->
            nearest_even c (10 ^ Z.to_N (-2 - e))
              (digits_to_N (ip ++ [d1; d2])))).
Proof.
  split.
  - intros ->. reflexivity.
  - intros Hc _. rewrite format_amount_nonzero by done.
    pose proof (hundredths_digits (rescale2 c e)) as Hq.
    set (q := rescale2 c e) in *.
    exists (str_of_N (q / 100)), (digit_char (q / 10 mod 10)), (digit_char (q mod 10)).
    assert (H1 : isdigit (digit_char (q / 10 mod 10)) = true).
    { apply digit_char_isdigit, N.mod_lt. lia. }
    assert (H2 : isdigit (digit_char (q mod 10)) = true).
    { apply digit_char_isdigit, N.mod_lt. lia. }
    split_and!; try done.
    + apply str_of_N_nonempty.
    + apply str_of_N_digits.
    + apply str_of_N_canonical.
    + change ("."%char :: [digit_char (q / 10 mod 10); digit_char (q mod 10)])
        with (["."%char; digit_char (q / 10 mod 10)] ++ [digit_char (q mod 10)]).
      rewrite !app_assoc. apply (endswith_last _ ["C"%char]).
      intros Heq. by rewrite Heq in H2.
    + intros He. rewrite Hq. subst q. unfold rescale2.
      destruct (Z.leb_spec (-2) e); [done|lia].
    + intros He. rewrite Hq. subst q. unfold rescale2.
      destruct (Z.leb_spec (-2) e); [lia|]. apply round_half_even_nearest.
Qed.

Lemma format_amount_spec_witness :
  exists ip d1 d2,
    format_amount (Finite true 50000 (-2))
    = Return (["-"%char] ++ ip ++ "."%char :: [d1; d2])
    /\ ip <> [] /\ forallb isdigit ip = true
    /\ (forall rest, ip = "0"%char :: rest -> rest = [])
    /\ isdigit d1 = true /\ isdigit d2 = true
    /\ endswith (["-"%char] ++ ip ++ "."%char :: [d1; d2]) "CR" = false
    /\ (-2 <= -2 ->
        digits_to_N (ip ++ [d1; d2]) = (50000 * 10 ^ Z.to_N (-2 + 2))%N)
    /\ (-2 < -2 ->
        nearest_even 50000 (10 ^ Z.to_N (-2 - -2))
          (digits_to_N (ip ++ [d1; d2]))).
Proof.
  apply (proj2 (format_amount_spec true 50000 (-2))); [discriminate|].
  vm_compute. discriminate.
Defined.

(** C8: an amount with more than two fractional digits is rendered from its
    coefficient rounded to hundredths, to the nearest and to the even
    neighbour on a tie (a zero is rendered [.00]); 100.456 gives 100.46. *)
Theorem format_amount_rounds :
  (forall (s : bool) (c : N) (e : Z),
     e < -2 ->
     exists q,
       nearest_even c (10 ^ Z.to_N (-2 - e)) q
       /\ format_amount (Finite s c e)
          = Return (if (c =? 0)%N then (".00" : list ascii) else fixed2 s q))
  /\ Decimal_of_str "100.456" = Some (Finite false 100456 (-3))
  /\ format_amount (Finite false 100456 (-3)) = Return ("100.46" : list ascii).
Proof.
  split_and!; try reflexivity.
  intros s c e He. exists (round_half_even c (-2 - e)).
  split; [apply round_half_even_nearest|].
  destruct (c =? 0)%N eqn:E.
  - apply N.eqb_eq in E as ->. reflexivity.
  - apply N.eqb_neq in E. rewrite format_amount_nonzero by done.
    unfold rescale2. destruct (-2 <=? e) eqn:E2; [|done].
    apply Z.leb_le in E2. lia.
Qed.

Lemma format_amount_rounds_witness :
  exists q,
    nearest_even 100455 (10 ^ Z.to_N (-2 - -3)) q
    /\ format_amount (Finite true 100455 (-3))
       = Return (fixed2 true q).
Proof.
  apply (proj1 format_amount_rounds true 100455%N (-3)). lia.
Defined.

(** ** The matcher finds every line that begins with a label and an amount *)

Lemma firstn_app_length (w s : list ascii) :
  firstn (length (w ++ s) - length s) (w ++ s) = w.
Proof.
  rewrite length_app, Nat.add_sub, firstn_app, Nat.sub_diag, firstn_all.
  simpl. by rewrite app_nil_r.
Qed.

Lemma plus_tail_max (p : ascii -> bool) (prev : option ascii) (w s : list ascii)
    (k : option ascii -> list ascii -> option outcome) (out : outcome) :
  forallb p w = true ->
  match s with [] => True | c :: _ => p c = false end ->
  k (prev_after prev w) s = Some out ->
  plus_tail p prev (w ++ s) k = Some out.
Proof.
  intros Hw Hs. revert prev. induction w as [|a w IH]; intros prev Hk; simpl in *.
  - destruct s as [|c s]; simpl; [done|]. by rewrite Hs.
  - apply andb_true_iff in Hw as [-> Hw]. by rewrite (IH Hw (Some a) Hk).
Qed.

Lemma lit_CR_none (prev : option ascii) (s : list ascii) :
  (forall r, s <> "C"%char :: "R"%char :: r) -> lit "CR" prev s = None.
Proof.
  intros H. change (lit ["C"; "R"]%char prev s = None).
  destruct s as [|c1 [|c2 r]]; cbn [lit].
  - done.
  - by destruct (ascii_eqb "C" c1).
  - destruct (ascii_eqb "C" c1) eqn:E1; [|done].
    destruct (ascii_eqb "R" c2) eqn:E2; [|done].
    apply ascii_eqb_eq in E1 as <-. apply ascii_eqb_eq in E2 as <-.
    by destruct (H r).
Qed.

Lemma digit_or_comma_not_space (c : ascii) :
  digit_or_comma c = true -> isspace c = false.
Proof.
  unfold digit_or_comma. rewrite orb_true_iff, ascii_eqb_eq.
  intros [H | ->]; [|done]. by digit_cases H.
Qed.

Lemma run_amount (prev : option ascii) (body : list ascii) (d1 d2 : ascii)
    (credit : bool) (rest : list ascii) (caps : groups)
    (k : option ascii -> list ascii -> groups -> option outcome) (out : outcome) :
  body <> [] -> forallb digit_or_comma body = true ->
  isdigit d1 = true -> isdigit d2 = true ->
  (credit = false -> forall r, rest <> "C"%char :: "R"%char :: r) ->
  (forall pr, k pr rest caps = Some out) ->
  run AMOUNT_PATTERN prev (token body d1 d2 credit ++ rest) caps k = Some out.
Proof.
  intros Hne Hbody H1 H2 Hmax Hk.
  destruct body as [|b0 body]; [done|]. simpl in Hbody.
  apply andb_true_iff in Hbody as [Hb0 Hbody].
  unfold AMOUNT_PATTERN, token. cbn [run app]. rewrite Hb0.
  rewrite <- app_assoc. apply plus_tail_max; [done|done|].
  cbn [app lit rep_with list_ascii_of_string]. rewrite ascii_eqb_refl, H1, H2.
  destruct credit.
  - cbn [app lit]. rewrite !ascii_eqb_refl. by rewrite Hk.
  - cbn [app].
    pose proof (lit_CR_none (Some d2) rest (Hmax eq_refl)) as HCR.
    cbn [lit list_ascii_of_string] in HCR. rewrite HCR. by rewrite Hk.
Qed.

Lemma run_label (label : list ascii) (prev : option ascii) (s : list ascii)
    (caps : groups)
    (k : option ascii -> list ascii -> groups -> option outcome) (out : outcome) :
  In label TRANSACTION_TYPES ->
  (forall pr, k pr s caps = Some out) ->
  run (alternation TRANSACTION_TYPES) prev (label ++ s) caps k = Some out.
Proof.
  intros Hin Hk. simpl in Hin.
  destruct_or!; try done; subst label; simpl; by rewrite ?Hk.
Qed.

Lemma match_at_complete (prev : option ascii) (s rest label tok : list ascii) :
  prev = None \/ prev = Some newline ->
  line_match s [label; tok] rest ->
  (endswith tok "CR" = false -> forall r, rest <> "C"%char :: "R"%char :: r) ->
  match_at LINE_PATTERN prev s = Some (rest, [label; tok]).
Proof.
  intros Hbol (label' & ws & body & d1 & d2 & credit & Hlab & Hws & Hfws
               & Hne & Hbody & Hd1 & Hd2 & -> & [= <- ->]) Hmax.
  rewrite token_endswith in Hmax by done.
  unfold match_at, LINE_PATTERN. cbn [run].
  assert (Hgo : forall pr,
    run (alternation TRANSACTION_TYPES) pr
      (label ++ ws ++ token body d1 d2 credit ++ rest) []
      (fun pr0 s' cs =>
         (fun pr1 s'0 cs0 =>
            match s'0 with
            | [] => None
            | c :: s'1 =>
                if isspace c then
                  plus_tail isspace (Some c) s'1
                    (fun pr2 s'' =>
                       run AMOUNT_PATTERN pr2 s'' cs0
                         (fun _ s'2 cs1 =>
                            Some (s'2, cs1 ++ [firstn (length s'' - length s'2) s''])))
                else None
            end) pr0 s'
           (cs ++ [firstn
                     (length (label ++ ws ++ token body d1 d2 credit ++ rest)
                      - length s')
                     (label ++ ws ++ token body d1 d2 credit ++ rest)]))
    = Some (rest, [label; token body d1 d2 credit])).
  { intros pr. apply run_label; [done|]. intros pr0. cbn beta.
    rewrite firstn_app_length. destruct ws as [|w0 ws]; [done|].
    simpl in Hfws. apply andb_true_iff in Hfws as [Hw0 Hfws].
    cbn [app]. rewrite Hw0. apply plus_tail_max; [done| |].
    - destruct body as [|b0 body]; [done|]. simpl in Hbody |- *.
      apply andb_true_iff in Hbody as [Hb0 _].
      by apply digit_or_comma_not_space.
    - apply run_amount; try done. intros pr1.
      by rewrite firstn_app_length. }
  destruct Hbol as [-> | ->].
  - apply Hgo.
  - rewrite ascii_eqb_refl. apply Hgo.
Qed.

(** ** No match begins inside another *)

Lemma match_at_bol (prev : option ascii) (s : list ascii) (out : outcome) :
  match_at LINE_PATTERN prev s = Some out ->
  prev = None \/ prev = Some newline.
Proof.
  unfold match_at, LINE_PATTERN. cbn [run].
  destruct prev as [c|]; [|by auto].
  destruct (ascii_eqb c newline) eqn:E; [|done].
  apply ascii_eqb_eq in E as ->. by auto.
Qed.

Lemma match_at_nil (prev : option ascii) : match_at LINE_PATTERN prev [] = None.
Proof.
  destruct (match_at LINE_PATTERN prev []) as [[rest m]|] eqn:E; [|done].
  apply line_shape in E
    as (label & ws & body & d1 & d2 & credit & _ & _ & _ & Hne & _ & _ & _ & H & _).
  unfold token in H. destruct label, ws, body; done.
Qed.

Lemma match_at_dead (a b : ascii) (s : list ascii) :
  dead_pair a b = true -> match_at LINE_PATTERN (Some a) (b :: s) = None.
Proof.
  intros Hdead.
  destruct (match_at LINE_PATTERN (Some a) (b :: s)) as [[rest m]|] eqn:E;
    [|done].
  pose proof (match_at_bol _ _ _ E) as [?|[= ->]]; [done|].
  apply line_shape in E
    as (label & ws & body & d1 & d2 & credit & Hlab & _ & _ & _ & _ & _ & _ & H & _).
  unfold dead_pair, not_newline, not_initial in Hdead.
  rewrite ascii_eqb_refl in Hdead. simpl in Hdead.
  apply negb_true_iff in Hdead.
  assert (Hinit : label_initial b = true); [|congruence].
  simpl in Hlab. destruct_or!; try done; subst label; cbn in H;
    injection H as -> _; reflexivity.
Qed.

Lemma scan_skip (r : regex) (prev : option ascii) (w rest : list ascii) :
  scan r prev (length w) (w ++ rest) = scan r (prev_after prev w) 0 rest.
Proof.
  revert prev. induction w as [|c w IH]; intros prev; [done|]. apply IH.
Qed.

Lemma scan_all_dead (a : ascii) (w rest : list ascii) :
  chain a w = true ->
  scan_all (Some a) (w ++ rest) = scan_all (prev_after (Some a) w) rest.
Proof.
  revert a. induction w as [|b w IH]; intros a; [done|].
  cbn [chain app scan_all]. rewrite andb_true_iff. intros [Hab Hw].
  rewrite match_at_dead by done. by apply IH.
Qed.

Lemma chain_not_newline (a : ascii) (w : list ascii) :
  not_newline a = true -> forallb not_newline w = true -> chain a w = true.
Proof.
  revert a. induction w as [|b w IH]; intros a Ha; simpl; [done|].
  rewrite andb_true_iff. intros [Hb Hw]. unfold dead_pair.
  rewrite Ha. simpl. by apply IH.
Qed.

Lemma last_default (u : list ascii) (x a b : ascii) :
  List.last (x :: u) a = List.last (x :: u) b.
Proof.
  revert x. induction u as [|y u IH]; intros x; [done|].
  change (List.last (y :: u) a = List.last (y :: u) b). apply IH.
Qed.

Lemma chain_app (a : ascii) (u v : list ascii) :
  chain a (u ++ v) = chain a u && chain (List.last u a) v.
Proof.
  revert a. induction u as [|b u IH]; intros a; [done|].
  cbn [app chain]. rewrite IH, andb_assoc. destruct u as [|y u]; [done|].
  replace (List.last (b :: y :: u) a) with (List.last (y :: u) b); [done|].
  apply (last_default u y b a).
Qed.

Lemma chain_not_initial (a : ascii) (w : list ascii) :
  forallb not_initial w = true -> chain a w = true.
Proof.
  revert a. induction w as [|b w IH]; intros a; simpl; [done|].
  rewrite andb_true_iff. intros [Hb Hw]. unfold dead_pair.
  rewrite Hb, orb_true_r. simpl. by apply IH.
Qed.

Lemma label_initial_cases (c : ascii) :
  label_initial c = true -> In c ["N"; "R"; "A"; "C"]%char.
Proof.
  unfold label_initial. cbn [existsb TRANSACTION_TYPES list_ascii_of_string].
  rewrite !orb_true_iff, !ascii_eqb_eq. simpl. intuition congruence.
Qed.

Lemma space_not_initial (c : ascii) : isspace c = true -> not_initial c = true.
Proof.
  intros H. unfold not_initial. apply negb_true_iff, not_true_is_false.
  intros Hc. apply label_initial_cases in Hc. simpl in Hc.
  by destruct_or!; subst.
Qed.

Lemma digit_or_comma_not_initial (c : ascii) :
  digit_or_comma c = true -> not_initial c = true.
Proof.
  intros H. unfold not_initial. apply negb_true_iff, not_true_is_false.
  intros Hc. apply label_initial_cases in Hc. simpl in Hc.
  by destruct_or!; subst.
Qed.

Lemma token_not_newline (body : list ascii) (d1 d2 : ascii) (credit : bool) :
  forallb digit_or_comma body = true -> isdigit d1 = true -> isdigit d2 = true ->
  forallb not_newline (token body d1 d2 credit) = true.
Proof.
  intros Hb H1 H2.
  apply (forallb_impl nospace); [|by apply token_nospace].
  intros c. unfold nospace, not_newline. rewrite !negb_true_iff.
  intros Hc. apply not_true_is_false. rewrite ascii_eqb_eq. by intros ->.
Qed.

Lemma label_not_newline (label : list ascii) :
  In label TRANSACTION_TYPES -> forallb not_newline label = true.
Proof. simpl. intros H. by destruct_or!; subst. Qed.

(** The characters of a matched word after the first are dead positions. *)
Lemma matched_chain (label ws body : list ascii) (d1 d2 : ascii) (credit : bool) :
  In label TRANSACTION_TYPES -> ws <> [] -> forallb isspace ws = true ->
  body <> [] -> forallb digit_or_comma body = true ->
  isdigit d1 = true -> isdigit d2 = true ->
  exists c w, label ++ ws ++ token body d1 d2 credit = c :: w
              /\ chain c w = true.
Proof.
  intros Hlab Hws Hfws Hne Hbody H1 H2.
  pose proof (label_not_newline label Hlab) as Hl.
  pose proof (token_not_newline body d1 d2 credit Hbody H1 H2) as Ht.
  destruct label as [|c l]; [simpl in Hlab; by destruct_or!|].
  exists c, (l ++ ws ++ token body d1 d2 credit). split; [done|].
  simpl in Hl. apply andb_true_iff in Hl as [Hc Hl].
  rewrite chain_app, chain_not_newline by done. simpl.
  rewrite chain_app, chain_not_initial
    by (revert Hfws; apply forallb_impl, space_not_initial).
  simpl. destruct (token body d1 d2 credit) as [|t0 tok] eqn:Et.
  { unfold token in Et. by destruct body. }
  simpl in Ht. apply andb_true_iff in Ht as [Ht0 Ht].
  simpl. rewrite chain_not_newline by done. rewrite andb_true_r.
  unfold dead_pair. rewrite digit_or_comma_not_initial; [by rewrite orb_true_r|].
  unfold token in Et. destruct body as [|b0 body]; [done|].
  simpl in Et, Hbody. injection Et as <- _.
  by apply andb_true_iff in Hbody as [-> _].
Qed.

(** [finditer] passes over the text of each match; nothing is lost by it. *)
Lemma scan_scan_all (n : nat) (s : list ascii) (prev : option ascii) :
  (length s <= n)%nat -> scan LINE_PATTERN prev 0 s = scan_all prev s.
Proof.
  revert s prev. induction n as [|n IH]; intros s prev Hn.
  - destruct s; [|simpl in Hn; lia]. simpl. by rewrite match_at_nil.
  - destruct s as [|c s]; [simpl; by rewrite match_at_nil|].
    cbn [scan scan_all].
    destruct (match_at LINE_PATTERN prev (c :: s)) as [[rest m]|] eqn:E.
    + f_equal. apply line_shape in E
        as (label & ws & body & d1 & d2 & credit & Hlab & Hws & Hfws
            & Hne & Hbody & H1 & H2 & Hs & _).
      destruct (matched_chain label ws body d1 d2 credit)
        as (c' & w & Hw & Hchain); try done.
      rewrite !app_assoc in Hs. rewrite <- (app_assoc label) in Hs.
      rewrite Hw in Hs. injection Hs as <- ->.
      cbn [length]. rewrite length_app.
      replace (S (length w + length rest) - length rest - 1)%nat
        with (length w) by lia.
      rewrite scan_skip, scan_all_dead by done.
      apply IH. simpl in Hn. rewrite length_app in Hn. lia.
    + apply IH. simpl in Hn. lia.
Qed.

Lemma finditer_scan_all (text : list ascii) :
  finditer LINE_PATTERN text = scan_all None text.
Proof. apply (scan_scan_all (length text)). lia. Qed.

(** * Further properties of the line pattern *)

Lemma line_match_groups (s rest : list ascii) (m : groups) :
  line_match s m rest -> m = [group 1 m; group 2 m].
Proof.
  by intros (label & ws & body & d1 & d2 & credit & _ & _ & _ & _ & _ & _ & _
             & _ & ->).
Qed.

Lemma line_match_credit (s rest r label tok : list ascii) :
  line_match s [label; tok] rest -> endswith tok "CR" = false ->
  rest = "C"%char :: "R"%char :: r ->
  line_match s [label; tok ++ ["C"; "R"]%char] r
  /\ endswith (tok ++ ["C"; "R"]%char) "CR" = true.
Proof.
  intros (label' & ws & body & d1 & d2 & credit & Hlab & Hws & Hfws & Hne
          & Hbody & H1 & H2 & -> & [= <- ->]) Hcr ->.
  rewrite token_endswith in Hcr by done. subst credit.
  split; [|apply endswith_app].
  exists label, ws, body, d1, d2, true. split_and!; try done.
  all: unfold token; by rewrite <- ?app_assoc.
Qed.

Lemma match_at_spec_aux (prev : option ascii) (s rest : list ascii) (m : groups) :
  match_at LINE_PATTERN prev s = Some (rest, m)
  <-> (prev = None \/ prev = Some newline)
      /\ line_match s m rest
      /\ (endswith (group 2 m) "CR" = false ->
          forall r, rest <> "C"%char :: "R"%char :: r).
Proof.
  split.
  - intros H. pose proof (match_at_bol _ _ _ H) as Hbol.
    pose proof (line_shape _ _ _ _ H) as Hm.
    split_and!; [done|done|].
    intros Hcr r Hrest. rewrite (line_match_groups _ _ _ Hm) in Hm.
    destruct (line_match_credit _ _ r _ _ Hm Hcr Hrest) as [Hm' Hcr'].
    apply (match_at_complete prev) in Hm'; [|done|by rewrite Hcr'].
    rewrite H in Hm'. injection Hm' as Hrest' _.
    rewrite Hrest in Hrest'. apply (f_equal (@length ascii)) in Hrest'.
    simpl in Hrest'. lia.
  - intros (Hbol & Hm & Hmax).
    rewrite (line_match_groups _ _ _ Hm) in Hm |- *.
    by apply match_at_complete.
Qed.

(** X1: a match at a position.  The pattern matches at the start of [s],
    with [prev] the character before it, exactly when the position is the
    start of the text or follows a newline and [s] reads a label, whitespace
    and an amount token; the token captured takes the credit suffix whenever
    the text has it. *)
Theorem match_at_spec (prev : option ascii) (s rest : list ascii) (m : groups) :
  match_at LINE_PATTERN prev s = Some (rest, m)
  <-> (prev = None \/ prev = Some newline)
      /\ line_match s m rest
      /\ (endswith (group 2 m) "CR" = false ->
          forall r, rest <> "C"%char :: "R"%char :: r).
Proof. apply match_at_spec_aux. Qed.

Lemma scan_all_in (prev : option ascii) (s : list ascii) (m : groups) :
  In m (scan_all prev s)
  <-> exists pre s' rest,
        s = pre ++ s'
        /\ match_at LINE_PATTERN (prev_after prev pre) s' = Some (rest, m).
Proof.
  revert prev. induction s as [|c s IH]; intros prev.
  - simpl. split; [done|]. intros (pre & s' & rest & Hs & H).
    symmetry in Hs. apply app_eq_nil in Hs as [-> ->].
    by rewrite match_at_nil in H.
  - cbn [scan_all]. split.
    + intros H.
      assert (Hrec : In m (scan_all (Some c) s) ->
                exists pre s' rest, c :: s = pre ++ s'
                  /\ match_at LINE_PATTERN (prev_after prev pre) s' = Some (rest, m)).
      { intros Hin. apply IH in Hin as (pre & s' & rest & -> & Hm).
        by exists (c :: pre), s', rest. }
      destruct (match_at LINE_PATTERN prev (c :: s)) as [[rest m']|] eqn:E;
        [|by auto].
      destruct H as [<-|H]; [|by auto]. by exists [], (c :: s), rest.
    + intros (pre & s' & rest & Hs & Hm). destruct pre as [|c' pre].
      * simpl in Hs, Hm. subst s'. rewrite Hm. by left.
      * injection Hs as <- ->.
        assert (Hin : In m (scan_all (Some c) (pre ++ s'))).
        { apply IH. by exists pre, s', rest. }
        destruct (match_at LINE_PATTERN prev (c :: pre ++ s')) as [[? ?]|];
          [by right|done].
Qed.

(** X2: what [finditer] reports.  A match is reported exactly when the text
    has, at its start or right after a newline, a label, whitespace and an
    amount token (with the credit suffix if the text has it): a match never
    hides a line that begins after it began. *)
Theorem finditer_spec (text : list ascii) (m : groups) :
  In m (finditer LINE_PATTERN text)
  <-> exists pre s rest,
        text = pre ++ s
        /\ (prev_after None pre = None \/ prev_after None pre = Some newline)
        /\ line_match s m rest
        /\ (endswith (group 2 m) "CR" = false ->
            forall r, rest <> "C"%char :: "R"%char :: r).
Proof.
  rewrite finditer_scan_all, scan_all_in. split.
  - intros (pre & s & rest & -> & H). apply match_at_spec_aux in H.
    exists pre, s, rest. by split.
  - intros (pre & s & rest & -> & H). exists pre, s, rest.
    split; [done|]. by apply match_at_spec_aux.
Qed.

Lemma scan_all_first_token (label : list ascii) (prev : option ascii)
    (pre x : list ascii) :
  (forall pre1 pre2 rest' tok',
     pre = pre1 ++ pre2 -> pre2 <> [] ->
     match_at LINE_PATTERN (prev_after prev pre1) (pre2 ++ x)
     <> Some (rest', [label; tok'])) ->
  first_token label (scan_all prev (pre ++ x))
  = first_token label (scan_all (prev_after prev pre) x).
Proof.
  revert prev. induction pre as [|c pre IH]; intros prev Hnone; [done|].
  cbn [app scan_all].
  assert (Hrec : first_token label (scan_all (Some c) (pre ++ x))
                 = first_token label (scan_all (prev_after prev (c :: pre)) x)).
  { apply IH. intros pre1 pre2 rest' tok' -> Hne.
    by apply (Hnone (c :: pre1) pre2). }
  destruct (match_at LINE_PATTERN prev (c :: pre ++ x)) as [[rest m]|] eqn:E;
    [|done].
  cbn [first_token]. destruct (str_eqb (group 1 m) label) eqn:El; [|done].
  apply str_eqb_eq in El. pose proof (line_shape _ _ _ _ E) as Hm.
  rewrite (line_match_groups _ _ _ Hm), El in E.
  by destruct (Hnone [] (c :: pre) rest (group 2 m)).
Qed.

Lemma first_line_wins_aux (pre s rest label tok co : list ascii) :
  Z.of_nat (length (pre ++ s)) <= 1000000 ->
  prev_after None pre = None \/ prev_after None pre = Some newline ->
  line_match s [label; tok] rest ->
  (endswith tok "CR" = false -> forall r, rest <> "C"%char :: "R"%char :: r) ->
  (forall pre1 pre2 tok' rest',
     pre = pre1 ++ pre2 -> pre2 <> [] ->
     prev_after None pre1 = None \/ prev_after None pre1 = Some newline ->
     ~ line_match (pre2 ++ s) [label; tok'] rest') ->
  exists r d,
    extract_page_data (Some (pre ++ s)) co = Return (Some r)
    /\ parse_amount tok = Return d
    /\ field label r = d.
Proof.
  intros Hlen Hbol Hm Hmax Hfirst.
  assert (Htok : first_token label (finditer LINE_PATTERN (pre ++ s)) = Some tok).
  { rewrite finditer_scan_all, scan_all_first_token.
    - destruct s as [|c s].
      { destruct Hm as (l & ws & body & d1 & d2 & credit & _ & _ & _ & Hne & _
                        & _ & _ & H & _).
        unfold token in H. destruct l, ws, body; done. }
      cbn [scan_all]. rewrite (match_at_complete _ _ rest label tok) by done.
      cbn [first_token]. unfold group. simpl. by rewrite str_eqb_refl.
    - intros pre1 pre2 rest' tok' Hpre Hne H.
      apply match_at_spec_aux in H as (Hb & Hm' & _).
      by apply (Hfirst pre1 pre2 tok' rest'). }
  assert (Hlabel : In label TRANSACTION_TYPES).
  { by destruct Hm as (l & ws & body & d1 & d2 & credit & Hlab & _ & _ & _ & _
                       & _ & _ & _ & [= <- _]). }
  destruct (extract_page_data_fields (pre ++ s) co Hlen) as (r & Hr & _ & Hf).
  { intros E. by rewrite E in Htok. }
  specialize (Hf label Hlabel). rewrite Htok in Hf.
  exists r, (field label r). by auto.
Qed.

(** X3: the first occurrence, read off the text.  When the text has, at a
    line start, a label with whitespace and an amount token, and no earlier
    line start begins with that label, whitespace and an amount, the record
    holds the amount of that token in the field of the label, whatever comes
    after it. *)
Theorem first_line_wins (pre s rest label tok co : list ascii) :
  Z.of_nat (length (pre ++ s)) <= 1000000 ->
  prev_after None pre = None \/ prev_after None pre = Some newline ->
  line_match s [label; tok] rest ->
  (endswith tok "CR" = false -> forall r, rest <> "C"%char :: "R"%char :: r) ->
  (forall pre1 pre2 tok' rest',
     pre = pre1 ++ pre2 -> pre2 <> [] ->
     prev_after None pre1 = None \/ prev_after None pre1 = Some newline ->
     ~ line_match (pre2 ++ s) [label; tok'] rest') ->
  exists r d,
    extract_page_data (Some (pre ++ s)) co = Return (Some r)
    /\ parse_amount tok = Return d
    /\ field label r = d.
Proof. apply first_line_wins_aux. Qed.

Lemma first_line_wins_witness :
  exists r d,
    extract_page_data
      (Some ([] ++ unlines
                     [ "NEW POLICIES 1,000.00 150.00 850.00" : list ascii;
                       "AGENCY BILLED" : list ascii;
                       "NEW POLICIES 2,000.00 300.00 1,700.00" : list ascii ]))
      "Test Company" = Return (Some r)
    /\ parse_amount "1,000.00" = Return d
    /\ field "NEW POLICIES"%string r = d.
Proof.
  apply (first_line_wins []
           (unlines [ "NEW POLICIES 1,000.00 150.00 850.00" : list ascii;
                      "AGENCY BILLED" : list ascii;
                      "NEW POLICIES 2,000.00 300.00 1,700.00" : list ascii ])
           (unlines [ " 150.00 850.00" : list ascii;
                      "AGENCY BILLED" : list ascii;
                      "NEW POLICIES 2,000.00 300.00 1,700.00" : list ascii ])).
  - vm_compute. discriminate.
  - left. reflexivity.
  - exists ("NEW POLICIES" : list ascii), [" "%char], ("1,000" : list ascii),
      "0"%char, "0"%char, false.
    split; [simpl; tauto|]. split; [discriminate|]. split; [reflexivity|].
    split; [discriminate|]. split; [reflexivity|]. split; [reflexivity|].
    split; [reflexivity|]. split; reflexivity.
  - intros _ r. discriminate.
  - intros pre1 pre2 tok' rest' Hsplit Hne. destruct pre1; [|discriminate].
    destruct pre2; [|discriminate]. by destruct Hne.
Defined.

Lemma labels_prefix_free (l l' x y : list ascii) :
  In l TRANSACTION_TYPES -> In l' TRANSACTION_TYPES ->
  l ++ x = l' ++ y -> l = l'.
Proof.
  simpl. intros Hl Hl' H.
  destruct_or!; try done; subst l l'; cbn in H; try done; try discriminate H.
Qed.

Lemma span_unique (p : ascii -> bool) (u u' x y : list ascii) (a b : ascii) :
  forallb p u = true -> forallb p u' = true -> p a = false -> p b = false ->
  u ++ a :: x = u' ++ b :: y -> a = b.
Proof.
  revert u'. induction u as [|c u IH]; intros [|c' u'] Hu Hu' Ha Hb H;
    simpl in *.
  - by injection H.
  - injection H as -> _. apply andb_true_iff in Hu' as [Hc _]. congruence.
  - injection H as -> _. apply andb_true_iff in Hu as [Hc _]. congruence.
  - injection H as _ H. apply andb_true_iff in Hu as [_ Hu].
    apply andb_true_iff in Hu' as [_ Hu']. by apply (IH u').
Qed.

Lemma first_field_must_start_with_digit_aux (prev : option ascii)
    (label ws rest : list ascii) (c : ascii) :
  In label TRANSACTION_TYPES -> forallb isspace ws = true ->
  isspace c = false -> digit_or_comma c = false ->
  match_at LINE_PATTERN prev (label ++ ws ++ c :: rest) = None.
Proof.
  intros Hlab Hws Hc Hdc.
  destruct (match_at LINE_PATTERN prev (label ++ ws ++ c :: rest))
    as [[rest' m]|] eqn:E; [|done].
  apply line_shape in E
    as (label' & ws' & body & d1 & d2 & credit & Hlab' & _ & Hws' & Hne
        & Hbody & _ & _ & H & _).
  pose proof (labels_prefix_free _ _ _ _ Hlab Hlab' H) as <-.
  apply app_inv_head in H. destruct body as [|b0 body]; [done|].
  simpl in Hbody. apply andb_true_iff in Hbody as [Hb0 _].
  unfold token in H. cbn [app] in H.
  apply (span_unique isspace) in H;
    [congruence|done|done|done|by apply digit_or_comma_not_space].
Qed.

(** X4: what is never matched.  A line that has, after the label and the
    whitespace, a character other than a digit or a comma is not matched -
    in particular a line whose first field is the bare [.00]. *)
Theorem first_field_must_start_with_digit (prev : option ascii)
    (label ws rest : list ascii) (c : ascii) :
  In label TRANSACTION_TYPES -> forallb isspace ws = true ->
  isspace c = false -> digit_or_comma c = false ->
  match_at LINE_PATTERN prev (label ++ ws ++ c :: rest) = None.
Proof. apply first_field_must_start_with_digit_aux. Qed.

Lemma first_field_must_start_with_digit_witness :
  match_at LINE_PATTERN None
    (("NEW POLICIES" : list ascii) ++ ("  " : list ascii)
       ++ "."%char :: ("00  .00  .00" : list ascii)) = None.
Proof.
  apply first_field_must_start_with_digit;
    [simpl; tauto|reflexivity|reflexivity|reflexivity].
Defined.

(** * Further properties of the numeric token parser *)

Lemma lstrip_spaces (ws s : list ascii) :
  forallb isspace ws = true -> lstrip (ws ++ s) = lstrip s.
Proof.
  induction ws as [|c ws IH]; simpl; [done|].
  rewrite andb_true_iff. intros [-> Hws]. by apply IH.
Qed.

Lemma rstrip_spaces (ws : list ascii) : forallb isspace ws = true -> rstrip ws = [].
Proof.
  induction ws as [|c ws IH]; simpl; [done|].
  rewrite andb_true_iff. intros [-> Hws]. by rewrite IH.
Qed.

Lemma rstrip_app_spaces (s ws : list ascii) :
  forallb isspace ws = true -> rstrip (s ++ ws) = rstrip s.
Proof.
  intros Hws. induction s as [|c s IH]; simpl.
  - by apply rstrip_spaces.
  - by rewrite IH.
Qed.

Lemma lstrip_app (s ws : list ascii) :
  lstrip (s ++ ws) = lstrip s ++ ws \/ lstrip s = [].
Proof.
  induction s as [|c s IH]; simpl; [by right|].
  destruct (isspace c); [done|by left].
Qed.

Lemma lstrip_all_space (s : list ascii) : lstrip s = [] -> forallb isspace s = true.
Proof.
  induction s as [|c s IH]; simpl; [done|].
  destruct (isspace c); [done|discriminate].
Qed.

Lemma lstrip_nil_of_spaces (s : list ascii) :
  forallb isspace s = true -> lstrip s = [].
Proof.
  induction s as [|c s IH]; simpl; [done|].
  rewrite andb_true_iff. intros [-> Hs]. by apply IH.
Qed.

Lemma strip_surrounded (ws1 v ws2 : list ascii) :
  forallb isspace ws1 = true -> forallb isspace ws2 = true ->
  strip (ws1 ++ v ++ ws2) = strip v.
Proof.
  intros H1 H2. unfold strip. rewrite lstrip_spaces by done.
  destruct (lstrip_app v ws2) as [-> | Hv].
  - by apply rstrip_app_spaces.
  - rewrite Hv. apply lstrip_all_space in Hv.
    rewrite lstrip_nil_of_spaces; [done|].
    rewrite forallb_app. by rewrite Hv, H2.
Qed.

(** X5: surrounding whitespace does not count.  The parser gives the same
    result, or raises the same error, when whitespace is added around the
    token. *)
Theorem parse_amount_ignores_outer_space (ws1 v ws2 : list ascii) :
  forallb isspace ws1 = true -> forallb isspace ws2 = true ->
  parse_amount (ws1 ++ v ++ ws2)%list = parse_amount v.
Proof.
  intros H1 H2. unfold parse_amount. by rewrite strip_surrounded.
Qed.

Lemma parse_amount_ignores_outer_space_witness :
  parse_amount ([" "%char; newline] ++ ("1,500.50CR" : list ascii) ++ [" "%char])%list
  = parse_amount "1,500.50CR".
Proof. apply parse_amount_ignores_outer_space; reflexivity. Defined.


(** * Further properties of the formatter *)

Lemma round_half_even_scale (c : N) (k j : Z) :
  0 <= k -> 0 <= j ->
  round_half_even (c * 10 ^ Z.to_N j) (k + j) = round_half_even c k.
Proof.
  intros Hk Hj. unfold round_half_even. cbv zeta.
  rewrite Z2N.inj_add, N.pow_add_r by done.
  set (p := (10 ^ Z.to_N k)%N). set (t := (10 ^ Z.to_N j)%N).
  assert (Hp : p <> 0%N) by (subst p; apply N.pow_nonzero; lia).
  assert (Ht : t <> 0%N) by (subst t; apply N.pow_nonzero; lia).
  rewrite N.Div0.div_mul_cancel_r, N.Div0.mul_mod_distr_r by done.
  set (q := (c / p)%N). set (r := (c mod p)%N).
  replace (p * t <? 2 * (r * t))%N with (p <? 2 * r)%N.
  2:{ destruct (N.ltb_spec p (2 * r)), (N.ltb_spec (p * t) (2 * (r * t)));
        try done; nia. }
  replace (2 * (r * t) =? p * t)%N with (2 * r =? p)%N; [done|].
  destruct (N.eqb_spec (2 * r) p), (N.eqb_spec (2 * (r * t)) (p * t));
    try done; nia.
Qed.

Lemma round_half_even_exact (c : N) (k : Z) :
  round_half_even (c * 10 ^ Z.to_N k) k = c.
Proof.
  unfold round_half_even. cbv zeta. set (p := (10 ^ Z.to_N k)%N).
  assert (Hp : p <> 0%N) by (subst p; apply N.pow_nonzero; lia).
  rewrite N.div_mul, N.Div0.mod_mul by done.
  destruct (N.ltb_spec p (2 * 0)); [lia|].
  destruct (N.eqb_spec (2 * 0) p); [lia|done].
Qed.

(** Trailing zeros of the coefficient do not change the hundredths. *)
Lemma rescale2_scale (c : N) (e j : Z) :
  0 <= j -> rescale2 (c * 10 ^ Z.to_N j) (e - j) = rescale2 c e.
Proof.
  intros Hj. unfold rescale2.
  destruct (Z.leb_spec (-2) (e - j)), (Z.leb_spec (-2) e); try lia.
  - replace (Z.to_N (e + 2)) with (Z.to_N j + Z.to_N (e - j + 2))%N by lia.
    rewrite N.pow_add_r. lia.
  - replace (Z.to_N j) with (Z.to_N (e + 2) + Z.to_N (-2 - (e - j)))%N by lia.
    rewrite N.pow_add_r, N.mul_assoc. apply round_half_even_exact.
  - replace (-2 - (e - j)) with ((-2 - e) + j) by lia.
    apply round_half_even_scale; lia.
Qed.

Lemma Decimal_eqb_sym (a b : Decimal) : Decimal_eqb a b = Decimal_eqb b a.
Proof.
  destruct a as [s c e| s | s g i], b as [s' c' e'| s' | s' g' i']; simpl; try done.
  - by rewrite Z.eqb_sym, Z.min_comm.
  - by destruct s, s'.
Qed.

Lemma Decimal_eqb_scaled (s s' : bool) (c c' : N) (e e' : Z) :
  Decimal_eqb (Finite s c e) (Finite s' c' e') = true -> e <= e' ->
  (c = 0%N /\ c' = 0%N)
  \/ (c <> 0%N /\ c' <> 0%N /\ s = s' /\ c = (c' * 10 ^ Z.to_N (e' - e))%N).
Proof.
  simpl. intros H He. apply Z.eqb_eq in H.
  rewrite Z.min_l, Z.sub_diag in H by done. simpl in H. rewrite Z.mul_1_r in H.
  assert (HK : 0 < 10 ^ (e' - e)) by (apply Z.pow_pos_nonneg; lia).
  assert (Hpow : Z.of_N (10 ^ Z.to_N (e' - e)) = 10 ^ (e' - e)).
  { rewrite N2Z.inj_pow, Z2N.id by lia. done. }
  assert (Hprod : Z.of_N (c' * 10 ^ Z.to_N (e' - e))
                  = Z.of_N c' * 10 ^ (e' - e)).
  { by rewrite N2Z.inj_mul, Hpow. }
  destruct (N.eq_dec c 0%N) as [->|Hc].
  - left. split; [done|]. destruct s, s'; simpl in H; nia.
  - right. assert (Hc' : c' <> 0%N).
    { intros ->. destruct s, s'; simpl in H; lia. }
    split; [done|]. split; [done|].
    destruct s, s'; simpl in H; split; try done; try nia.
Qed.

Lemma format_amount_scaled (s : bool) (c : N) (e j : Z) :
  0 <= j ->
  format_amount (Finite s (c * 10 ^ Z.to_N j) (e - j)) = format_amount (Finite s c e).
Proof.
  intros Hj. destruct (N.eq_dec c 0%N) as [->|Hc]; [done|].
  rewrite !format_amount_nonzero, rescale2_scale; [done|done|done|].
  apply N.neq_mul_0. split; [done|]. apply N.pow_nonzero. lia.
Qed.

(** X7: the rendering depends on the amount, not on how it is written.  Two
    finite decimals that are equal as numbers ([1.5] and [1.50], [0] and
    [-0.00]) are rendered by the same string. *)
Theorem format_amount_of_equal_amounts (s s' : bool) (c c' : N) (e e' : Z) :
  Decimal_eqb (Finite s c e) (Finite s' c' e') = true ->
  format_amount (Finite s c e) = format_amount (Finite s' c' e').
Proof.
  intros H. destruct (Z.le_ge_cases e e') as [He|He].
  - destruct (Decimal_eqb_scaled _ _ _ _ _ _ H He)
      as [[-> ->] | (_ & _ & -> & ->)]; [done|].
    pose proof (format_amount_scaled s' c' e' (e' - e) ltac:(lia)) as Hs.
    by replace (e' - (e' - e)) with e in Hs by lia.
  - rewrite Decimal_eqb_sym in H.
    destruct (Decimal_eqb_scaled _ _ _ _ _ _ H He)
      as [[-> ->] | (_ & _ & -> & ->)]; [done|].
    pose proof (format_amount_scaled s c e (e - e') ltac:(lia)) as Hs.
    by replace (e - (e - e')) with e' in Hs by lia.
Qed.

Lemma format_amount_of_equal_amounts_witness :
  format_amount (Finite false 15 (-1)) = format_amount (Finite false 1500 (-3)).
Proof. apply format_amount_of_equal_amounts. reflexivity. Defined.

(** ** Reading back what was rendered *)

Lemma parse_number_numeral (sg : bool) (ds : list ascii) (d1 d2 : ascii) :
  forallb isdigit ds = true -> isdigit d1 = true -> isdigit d2 = true ->
  parse_number sg (ds ++ "."%char :: [d1; d2])
  = Some (Finite sg (digits_to_N (ds ++ [d1; d2])) (-2)).
Proof.
  intros Hds H1 H2. unfold parse_number.
  rewrite (span_all isdigit ds) by done.
  simpl. rewrite H1, H2. destruct ds as [|d ds]; done.
Qed.

Lemma Decimal_of_str_negative (ds : list ascii) (d1 d2 : ascii) :
  forallb isdigit ds = true -> isdigit d1 = true -> isdigit d2 = true ->
  Decimal_of_str ("-"%char :: ds ++ "."%char :: [d1; d2])%list
  = Some (Finite true (digits_to_N (ds ++ [d1; d2])) (-2)).
Proof.
  intros Hds H1 H2.
  assert (Hnum : forallb numeral_char (ds ++ "."%char :: [d1; d2]) = true).
  { rewrite forallb_app. simpl.
    rewrite (forallb_impl _ _ _ isdigit_numeral Hds).
    by rewrite !isdigit_numeral. }
  unfold Decimal_of_str.
  rewrite strip_nospace.
  2:{ simpl. by apply (forallb_impl _ _ _ numeral_nospace). }
  unfold remove_underscores. rewrite filter_id.
  2:{ simpl. by apply (forallb_impl _ _ _ numeral_not_underscore). }
  cbn [map]. rewrite (map_id_on lower numeral_char) by (done || apply numeral_lower).
  change (lower "-"%char) with "-"%char. cbn [parse_sign].
  by rewrite parse_number_numeral.
Qed.

Lemma fixed2_forall (P : ascii -> bool) (s : bool) (q : N) :
  (forall c, isdigit c = true -> P c = true) ->
  P "-"%char = true -> P "."%char = true ->
  forallb P (fixed2 s q) = true.
Proof.
  intros Hd Hminus Hpoint. unfold fixed2. rewrite !forallb_app. simpl.
  rewrite (forallb_impl isdigit P _ Hd (str_of_N_digits _)), Hpoint.
  rewrite !Hd by (apply digit_char_isdigit, N.mod_lt; lia).
  destruct s; simpl; by rewrite ?Hminus.
Qed.

Lemma fixed2_nospace (s : bool) (q : N) : forallb nospace (fixed2 s q) = true.
Proof.
  apply fixed2_forall; [|done|done].
  intros c H. by apply numeral_nospace, isdigit_numeral.
Qed.

Lemma fixed2_no_comma (s : bool) (q : N) : remove_commas (fixed2 s q) = fixed2 s q.
Proof.
  unfold remove_commas. apply filter_id, fixed2_forall; [|done|done].
  intros c H. by rewrite isdigit_not_comma.
Qed.

(** The parser reads a rendered number back as the hundredths rendered. *)
Lemma parse_amount_fixed2 (s : bool) (q : N) :
  parse_amount (fixed2 s q) = Return (Finite s q (-2)).
Proof.
  assert (H1 : isdigit (digit_char (q / 10 mod 10)) = true)
    by (apply digit_char_isdigit, N.mod_lt; lia).
  assert (H2 : isdigit (digit_char (q mod 10)) = true)
    by (apply digit_char_isdigit, N.mod_lt; lia).
  pose proof (str_of_N_digits (q / 100)) as Hip.
  pose proof (str_of_N_nonempty (q / 100)) as Hne.
  unfold parse_amount. rewrite strip_nospace by apply fixed2_nospace.
  assert (Hsent : str_eqb (fixed2 s q) ".00" = false).
  { unfold fixed2. destruct s; [done|].
    destruct (str_of_N (q / 100)) as [|d ds]; [done|]. simpl in Hip |- *.
    apply andb_true_iff in Hip as [Hd _].
    apply andb_false_iff. left. apply not_true_is_false.
    rewrite ascii_eqb_eq. by intros ->. }
  assert (Hcr : endswith (fixed2 s q) "CR" = false).
  { unfold fixed2.
    change ("."%char :: [digit_char (q / 10 mod 10); digit_char (q mod 10)])
      with (["."%char; digit_char (q / 10 mod 10)] ++ [digit_char (q mod 10)]).
    rewrite !app_assoc. apply (endswith_last _ ["C"%char]).
    intros Heq. by rewrite Heq in H2. }
  rewrite Hsent, Hcr, fixed2_no_comma. unfold fixed2.
  destruct s; cbn [sign_str app].
  - by rewrite Decimal_of_str_negative, hundredths_digits.
  - by rewrite Decimal_of_str_numeral, hundredths_digits.
Qed.

(** X8: the parser reads back what the formatter wrote.  For a finite
    amount the parser applied to the rendered string returns the amount in
    hundredths as rendered (the zero for [.00]); when the amount has at most
    two fractional digits that is the amount itself. *)
Theorem format_then_parse (s : bool) (c : N) (e : Z) :
  format_amount (Finite s c e) ≫= parse_amount
  = Return (if (c =? 0)%N then Decimal_zero else Finite s (rescale2 c e) (-2))
  /\ (-2 <= e ->
      exists d,
        format_amount (Finite s c e) ≫= parse_amount = Return d
        /\ Decimal_eqb d (Finite s c e) = true).
Proof.
  assert (Hfp : format_amount (Finite s c e) ≫= parse_amount
                = Return (if (c =? 0)%N then Decimal_zero
                          else Finite s (rescale2 c e) (-2))).
  { destruct (c =? 0)%N eqn:E.
    - apply N.eqb_eq in E as ->. reflexivity.
    - apply N.eqb_neq in E. rewrite format_amount_nonzero by done.
      apply parse_amount_fixed2. }
  split; [done|]. intros He. eexists. split; [exact Hfp|].
  destruct (c =? 0)%N eqn:E.
  - apply N.eqb_eq in E as ->. simpl. by destruct s.
  - unfold rescale2. destruct (Z.leb_spec (-2) e); [|lia].
    simpl. apply Z.eqb_eq. rewrite Z.min_l by lia.
    replace (-2 - -2) with 0 by lia. replace (e - -2) with (e + 2) by lia.
    rewrite Z.pow_0_r, Z.mul_1_r.
    assert (Hq : Z.of_N (c * 10 ^ Z.to_N (e + 2)) = Z.of_N c * 10 ^ (e + 2)).
    { rewrite N2Z.inj_mul, N2Z.inj_pow, Z2N.id by lia. done. }
    destruct s; simpl; lia.
Qed.

Lemma format_then_parse_witness :
  exists d,
    format_amount (Finite true 5 (-1)) ≫= parse_amount = Return d
    /\ Decimal_eqb d (Finite true 5 (-1)) = true.
Proof. apply (proj2 (format_then_parse true 5 (-1))). lia. Defined.

(** * Further properties of the document walker *)

Lemma visit_warn_one (pages : list page) (a : nat * list ascii) :
  Forall short_page pages -> (1 <= a.1)%nat ->
  (length (visit pages a) + length (warn pages a) = 1)%nat.
Proof.
  intros Hpages Ha. unfold visit, warn.
  destruct (length pages <? a.1)%nat eqn:E; [done|].
  apply Nat.ltb_ge in E.
  destruct (pages !! (a.1 - 1)%nat) as [p|] eqn:Hp.
  2:{ apply lookup_ge_None in Hp. lia. }
  destruct (extract_page_data_returns p a.2) as [o ->].
  { by apply (Forall_lookup_1 _ _ _ _ Hpages Hp). }
  by destruct o.
Qed.

Lemma visit_warn_count (pages : list page) (assignments : list (nat * list ascii)) :
  Forall short_page pages ->
  (forall a, In a assignments -> (1 <= a.1)%nat) ->
  (length (flat_map (visit pages) assignments)
   + length (flat_map (warn pages) assignments) = length assignments)%nat.
Proof.
  intros Hpages. induction assignments as [|a rest IH]; intros Hpos; [done|].
  cbn [flat_map length]. rewrite !length_app.
  pose proof (visit_warn_one pages a Hpages (Hpos a (or_introl eq_refl))).
  assert (Hrest : forall a', In a' rest -> (1 <= a'.1)%nat).
  { intros a' Ha'. apply Hpos. by right. }
  specialize (IH Hrest). lia.
Qed.

Lemma warn_page (pages : list page) (a : nat * list ascii) (w : warning) :
  In w (warn pages a) -> warning_page w = a.1.
Proof.
  unfold warn. destruct (length pages <? a.1)%nat; [by intros [<-|[]]|].
  destruct (pages !! (a.1 - 1)%nat) as [p|]; [|done].
  destruct (extract_page_data p a.2) as [[d|]|e]; try done.
  by intros [<-|[]].
Qed.

Lemma PAGES_positive (a : nat * list ascii) : In a PAGES -> (1 <= a.1)%nat.
Proof. simpl. intros H. destruct_or!; subst; simpl; lia. Qed.

(** X9: every assignment is accounted for.  On a document of short pages
    the walker returns six outcomes in all: a record or a warning for each
    configured page, never both and never neither; a warning always names a
    configured page. *)
Theorem extract_pdf_accounts_for_every_page (pages : list page) :
  Forall short_page pages ->
  exists results printed,
    extract_pdf pages = Return (results, printed)
    /\ (length results + length printed = 6)%nat
    /\ forall w, In w printed -> In (warning_page w) (map fst PAGES).
Proof.
  intros Hpages.
  exists (flat_map (visit pages) PAGES), (flat_map (warn pages) PAGES).
  split_and!.
  - unfold extract_pdf. rewrite walk_spec; [done|done|apply PAGES_positive].
  - apply (visit_warn_count pages PAGES Hpages PAGES_positive).
  - intros w Hw. apply in_flat_map in Hw as (a & Ha & Hw).
    rewrite (warn_page _ _ _ Hw). by apply in_map.
Qed.

Lemma extract_pdf_accounts_for_every_page_witness :
  exists results printed,
    extract_pdf twelve_pages = Return (results, printed)
    /\ (length results + length printed = 6)%nat
    /\ forall w, In w printed -> In (warning_page w) (map fst PAGES).
Proof.
  apply extract_pdf_accounts_for_every_page.
  repeat constructor; intros text [= <-]; vm_compute; discriminate.
Defined.

(** X10: a document too short for every assignment.  With fewer than four
    pages no page is read: the result set is empty and the six warnings are
    printed in the configured order. *)
Theorem extract_pdf_short_document (pages : list page) :
  (length pages < 4)%nat ->
  extract_pdf pages
  = Return ([], map PageNotInPdf [4; 5; 7; 8; 10; 11]%nat).
Proof.
  intros H. unfold extract_pdf, PAGES. rewrite !walk_cons.
  by repeat (rewrite (proj2 (Nat.ltb_lt _ _)) by lia).
Qed.

Lemma extract_pdf_short_document_witness :
  extract_pdf [policy_page; policy_page; policy_page]
  = Return ([], map PageNotInPdf [4; 5; 7; 8; 10; 11]%nat).
Proof. apply extract_pdf_short_document. simpl. lia. Defined.

Lemma walk_prefix (assignments : list (nat * list ascii))
    (pages extra : list page) (results : list CompanyData)
    (printed : list warning) :
  (forall a, In a assignments -> (1 <= a.1 <= length pages)%nat) ->
  walk assignments (pages ++ extra) results printed
  = walk assignments pages results printed.
Proof.
  revert results printed.
  induction assignments as [|[n co] rest IH]; intros results printed Hin;
    [done|].
  rewrite !walk_cons, length_app.
  pose proof (Hin (n, co) (or_introl eq_refl)) as Hn. simpl in Hn.
  assert (Hrest : forall a, In a rest -> (1 <= a.1 <= length pages)%nat).
  { intros a Ha. apply Hin. by right. }
  rewrite !(proj2 (Nat.ltb_ge _ _)) by lia.
  rewrite lookup_app_l by lia.
  destruct (pages !! (n - 1)%nat) as [p|]; [|done].
  destruct (extract_page_data p co) as [[d|]|e]; simpl; [by apply IH..|done].
Qed.

(** X11: pages after the eleventh are never read.  Appending pages to a
    document of at least eleven pages changes neither the result set nor
    the warnings nor an error. *)
Theorem extract_pdf_ignores_trailing_pages (pages extra : list page) :
  (11 <= length pages)%nat ->
  extract_pdf (pages ++ extra) = extract_pdf pages.
Proof.
  intros H. unfold extract_pdf. apply walk_prefix.
  intros a Ha. simpl in Ha. destruct_or!; subst; simpl; try done; lia.
Qed.

Lemma extract_pdf_ignores_trailing_pages_witness :
  extract_pdf (twelve_pages ++ [policy_page; None]) = extract_pdf twelve_pages.
Proof. apply extract_pdf_ignores_trailing_pages. simpl. lia. Defined.

(** * What the walker returns can always be rendered *)

Lemma fix_finite_finite (s : bool) (c : N) (e : Z) (d : Decimal) :
  fix_finite s c e = Return d -> is_finite d = true.
Proof.
  unfold fix_finite. repeat case_match; by intros [= <-].
Qed.

Lemma parse_token_finite (body : list ascii) (d1 d2 : ascii) (credit : bool)
    (d : Decimal) :
  body <> [] -> forallb digit_or_comma body = true ->
  isdigit d1 = true -> isdigit d2 = true ->
  parse_amount (token body d1 d2 credit) = Return d -> is_finite d = true.
Proof.
  intros Hne Hb H1 H2. rewrite parse_amount_token by done.
  destruct credit; [|by intros [= <-]].
  simpl. destruct (_ =? 0)%N; apply fix_finite_finite.
Qed.

Lemma collect_finite (text : list ascii) (ms : list groups)
    (values values' : gmap (list ascii) Decimal) :
  (forall m, In m ms -> In m (finditer LINE_PATTERN text)) ->
  map_Forall (fun _ d => is_finite d = true) values ->
  collect ms values = Return values' ->
  map_Forall (fun _ d => is_finite d = true) values'.
Proof.
  revert values. induction ms as [|m ms IH]; intros values Hms Hvalues; simpl.
  - by intros [= <-].
  - assert (Hrest : forall m', In m' ms -> In m' (finditer LINE_PATTERN text)).
    { intros m' Hm'. apply Hms. by right. }
    unfold record_match. destruct (values !! group 1 m); simpl.
    + by apply IH.
    + destruct (parse_amount (group 2 m)) as [d|e] eqn:Ed; simpl; [|done].
      apply IH; [done|]. apply map_Forall_insert_2; [|done].
      destruct (finditer_shape text m) as (s & rest & Hm & _).
      { apply Hms. by left. }
      destruct Hm as (label & ws & body & d1 & d2 & credit & _ & _ & _ & Hne
                      & Hbody & H1 & H2 & _ & ->).
      by apply (parse_token_finite body d1 d2 credit).
Qed.

Lemma extract_page_data_finite_aux (p : page) (co : list ascii) (r : CompanyData) :
  extract_page_data p co = Return (Some r) -> record_finite r = true.
Proof.
  destruct p as [[|c text]|]; [done| |done]. unfold extract_page_data.
  destruct (collect _ ∅) as [values|e] eqn:E; simpl; [|done].
  destruct (decide (values = ∅)); [done|]. intros [= <-].
  assert (Hfin : forall key, is_finite (get values key) = true).
  { intros key. unfold get.
    destruct (values !! key) as [d|] eqn:Hd; [|done]. simpl.
    apply (collect_finite (c :: text)) in E; [by apply (E key)|done|].
    apply map_Forall_empty. }
  unfold record_finite. simpl. by rewrite !Hfin.
Qed.

(** X12: an invariant of the records.  Every amount of a record the
    assembler returns is a finite decimal: no NaN and no infinity reaches
    the formatter, whatever the page text. *)
Theorem extract_page_data_finite (p : page) (co : list ascii) (r : CompanyData) :
  extract_page_data p co = Return (Some r) -> record_finite r = true.
Proof. apply extract_page_data_finite_aux. Qed.

Lemma extract_page_data_finite_witness :
  record_finite
    {| company := "Test Company";
       new_policies := Decimal_zero; rewrites := Decimal_zero;
       added_premium := Decimal_zero;
       return_premium := Finite true 150000 (-2);
       renewals := Decimal_zero; cancellations := Decimal_zero |} = true.
Proof.
  apply (extract_page_data_finite
           (Some (unlines [ "RETURN PREMIUM 1,500.00CR 225.00CR" : list ascii ]))
           "Test Company").
  reflexivity.
Defined.

Lemma walk_finite (assignments : list (nat * list ascii)) (pages : list page)
    (results results' : list CompanyData) (printed printed' : list warning) :
  walk assignments pages results printed = Return (results', printed') ->
  forallb record_finite results = true ->
  forallb record_finite results' = true.
Proof.
  revert results printed.
  induction assignments as [|[n co] rest IH]; intros results printed.
  - by intros [= <- _].
  - rewrite walk_cons. destruct (length pages <? n)%nat; [by apply IH|].
    destruct (pages !! (n - 1)%nat) as [p|]; [|done].
    destruct (extract_page_data p co) as [[d|]|e] eqn:E; simpl;
      [|by apply IH|done].
    intros H Hres. apply (IH _ _ H). rewrite forallb_app, Hres. simpl.
    by rewrite (extract_page_data_finite_aux _ _ _ E).
Qed.

Lemma format_amount_render (d : Decimal) :
  is_finite d = true -> format_amount d = Return (render d).
Proof.
  destruct d as [s c e| |]; [|done..]. intros _. simpl.
  destruct (c =? 0)%N eqn:E.
  - apply N.eqb_eq in E as ->. reflexivity.
  - apply N.eqb_neq in E. by rewrite format_amount_nonzero.
Qed.

Lemma render_plain (d : Decimal) : existsb csv_special (render d) = false.
Proof.
  assert (H : forallb (fun c => negb (csv_special c)) (render d) = true).
  { destruct d as [s c e| |]; [|done..]. simpl.
    destruct (c =? 0)%N; [done|]. apply fixed2_forall; [|done|done].
    intros x Hx. by digit_cases Hx. }
  apply not_true_is_false. intros Hex. apply existsb_exists in Hex as (x & Hx & Hs).
  rewrite forallb_forall in H. specialize (H x Hx). by rewrite Hs in H.
Qed.

Lemma row_fields_finite (r : CompanyData) :
  record_finite r = true ->
  row_fields r = Return (company r :: map render (amounts r)).
Proof.
  unfold record_finite. rewrite !andb_true_iff.
  intros (((((H1 & H2) & H3) & H4) & H5) & H6). unfold row_fields.
  by rewrite !format_amount_render.
Qed.

Lemma writerow_row (r : CompanyData) :
  writerow (company r :: map render (amounts r)) = row_line r.
Proof.
  unfold writerow, row_line, amounts, csv_field. cbn [map join flat_map].
  rewrite !render_plain. unfold crlf.
  set (co := if existsb csv_special (company r) then _ else _).
  assert (Hnorm : forall a b c d e f : list ascii,
    co ++ [","%char] ++ a ++ [","%char] ++ b ++ [","%char] ++ c
       ++ [","%char] ++ d ++ [","%char] ++ e ++ [","%char] ++ f
    = co ++ ((","%char :: a) ++ (","%char :: b) ++ (","%char :: c)
               ++ (","%char :: d) ++ (","%char :: e) ++ (","%char :: f) ++ [])).
  { intros. cbn [app]. by rewrite app_nil_r. }
  destruct (company r) as [|x [|y l]]; rewrite Hnorm; by rewrite <- ?app_assoc.
Qed.

Lemma write_rows_finite (data : list CompanyData) :
  forallb record_finite data = true ->
  write_rows data = Return (map row_line data).
Proof.
  intros H. induction data as [|r data IH]; [done|]. simpl in H.
  apply andb_true_iff in H as [Hr Hdata]. cbn [write_rows map].
  rewrite row_fields_finite, (IH Hdata) by done.
  cbn [mbind result_bind]. by rewrite writerow_row.
Qed.

Lemma print_row_finite (r : CompanyData) :
  record_finite r = true -> print_row r = Return (printed_lines r).
Proof.
  unfold record_finite. rewrite !andb_true_iff.
  intros (((((H1 & H2) & H3) & H4) & H5) & H6). unfold print_row.
  by rewrite !format_amount_render.
Qed.

(** X13: the rows of the walker's result.  Whatever the document, every
    amount of the records the walker returns is formatted without error in
    the loop of [write_csv], and the rows handed to the writer are one line
    per record, in order: in a line only the company cell can be quoted, the
    six amounts follow it unquoted, each after a single comma, and the line
    ends with CR LF. *)
Theorem extract_pdf_result_rows (pages : list page)
    (results : list CompanyData) (printed : list warning) :
  extract_pdf pages = Return (results, printed) ->
  write_rows results = Return (map row_line results).
Proof. intros H. apply walk_finite in H; [|done]. by apply write_rows_finite. Qed.

Lemma extract_pdf_result_rows_witness :
  write_rows (flat_map (visit twelve_pages) PAGES)
  = Return (map row_line (flat_map (visit twelve_pages) PAGES)).
Proof.
  apply (extract_pdf_result_rows twelve_pages _ []). reflexivity.
Defined.

(** X14: the walker's result can always be printed.  Whatever the
    document, when the walker returns, [print_data] formats every amount of
    its result without error and prints seven lines per record, in order:
    the company between dashes after an empty line, then each amount after
    its name. *)
Theorem extract_pdf_result_prints (pages : list page)
    (results : list CompanyData) (printed : list warning) :
  extract_pdf pages = Return (results, printed) ->
  print_data results = Return (flat_map printed_lines results).
Proof.
  intros H. apply walk_finite in H; [|done]. clear printed.
  induction results as [|r results IH]; [done|].
  simpl in H. apply andb_true_iff in H as [Hr Hres].
  cbn [print_data flat_map]. rewrite print_row_finite, (IH Hres) by done.
  reflexivity.
Qed.

Lemma extract_pdf_result_prints_witness :
  print_data (flat_map (visit twelve_pages) PAGES)
  = Return (flat_map printed_lines (flat_map (visit twelve_pages) PAGES)).
Proof.
  apply (extract_pdf_result_prints twelve_pages _ []). reflexivity.
Defined.

(** * The fixture generator and the extractor *)

Lemma group_from_right_digits (rds : list ascii) (k : nat) :
  forallb isdigit rds = true -> remove_commas (group_from_right rds k) = rds.
Proof.
  revert k. induction rds as [|d rds IH]; intros k; simpl; [done|].
  rewrite andb_true_iff. intros [Hd Hrds].
  destruct (k =? 3)%nat; simpl; rewrite (isdigit_not_comma d Hd); simpl;
    by rewrite IH.
Qed.

Lemma forallb_rev {A} (p : A -> bool) (l : list A) :
  forallb p (rev l) = forallb p l.
Proof.
  induction l as [|a l IH]; simpl; [done|].
  rewrite forallb_app, IH. simpl. by rewrite andb_true_r, andb_comm.
Qed.

Lemma group3_digits (ds : list ascii) :
  forallb isdigit ds = true -> remove_commas (group3 ds) = ds.
Proof.
  intros H. unfold group3, remove_commas. rewrite List.filter_rev.
  fold (remove_commas (group_from_right (rev ds) 0)).
  rewrite group_from_right_digits by (by rewrite forallb_rev).
  apply rev_involutive.
Qed.

Lemma group_from_right_chars (rds : list ascii) (k : nat) :
  forallb isdigit rds = true ->
  forallb digit_or_comma (group_from_right rds k) = true.
Proof.
  revert k. induction rds as [|d rds IH]; intros k; [done|].
  cbn [forallb group_from_right]. rewrite andb_true_iff. intros [Hd Hrds].
  assert (digit_or_comma d = true) as Hdc
    by (unfold digit_or_comma; by rewrite Hd).
  destruct (k =? 3)%nat; cbn [forallb]; rewrite Hdc, IH by done; done.
Qed.

Lemma group3_chars (ds : list ascii) :
  forallb isdigit ds = true -> forallb digit_or_comma (group3 ds) = true.
Proof.
  intros H. unfold group3. rewrite forallb_rev.
  apply group_from_right_chars. by rewrite forallb_rev.
Qed.

Lemma group3_nonempty (ds : list ascii) : ds <> [] -> group3 ds <> [].
Proof.
  intros Hne H. unfold group3 in H.
  apply (f_equal (@rev ascii)) in H. rewrite rev_involutive in H. simpl in H.
  destruct (rev ds) as [|d rds] eqn:E.
  - apply (f_equal (@rev ascii)) in E. rewrite rev_involutive in E. done.
  - simpl in H. done.
Qed.

Lemma fix_finite_id (s : bool) (c : N) (e : Z) :
  c <> 0%N -> ndigits c <= prec -> Etiny <= e -> e <= Etop ->
  fix_finite s c e = Return (Finite s c e).
Proof.
  intros Hc Hn He1 He2. unfold fix_finite.
  destruct (c =? 0)%N eqn:E; [by apply N.eqb_eq in E|].
  unfold Etop, Etiny, Emax, Emin, prec in *.
  destruct (_ <? ndigits c + e - 28) eqn:E1; [apply Z.ltb_lt in E1; lia|].
  destruct (e <? _) eqn:E2; [apply Z.ltb_lt in E2; lia|]. done.
Qed.

Lemma format_grouped_token (c : N) (e : Z) (credit : bool) :
  let q := rescale2 c e in
  let body := group3 (str_of_N (q / 100)) in
  format_grouped (Finite false c e) ++ (if credit then ["C"; "R"]%char else [])
  = token body (digit_char (q / 10 mod 10)) (digit_char (q mod 10)) credit
  /\ body <> [] /\ forallb digit_or_comma body = true
  /\ isdigit (digit_char (q / 10 mod 10)) = true
  /\ isdigit (digit_char (q mod 10)) = true
  /\ token_hundredths body (digit_char (q / 10 mod 10)) (digit_char (q mod 10))
     = q.
Proof.
  cbv zeta. split_and!.
  - unfold format_grouped, token. cbn [sign_str app]. by rewrite <- app_assoc.
  - apply group3_nonempty, str_of_N_nonempty.
  - apply group3_chars, str_of_N_digits.
  - apply digit_char_isdigit, N.mod_lt. lia.
  - apply digit_char_isdigit, N.mod_lt. lia.
  - unfold token_hundredths. rewrite group3_digits by apply str_of_N_digits.
    apply hundredths_digits.
Qed.

Lemma pow10_exp_bound (c : N) (e : Z) :
  c <> 0%N -> -2 <= e -> (c * 10 ^ Z.to_N (e + 2) < 10 ^ 28)%N -> e < 26.
Proof.
  intros Hc He H.
  assert (10 ^ Z.to_N (e + 2) < 10 ^ 28)%N as Hp by nia.
  apply N.pow_lt_mono_r_iff in Hp; lia.
Qed.

Lemma generated_token (s : bool) (c : N) (e : Z) :
  c <> 0%N -> -2 <= e -> (c * 10 ^ Z.to_N (e + 2) < 10 ^ 28)%N ->
  generate_mock_pdfs.format_amount (Finite s c e)
  = Return (token (group3 (str_of_N (c * 10 ^ Z.to_N (e + 2) / 100)))
              (digit_char (c * 10 ^ Z.to_N (e + 2) / 10 mod 10))
              (digit_char (c * 10 ^ Z.to_N (e + 2) mod 10)) s).
Proof.
  intros Hc He Hq. pose proof (pow10_exp_bound c e Hc He Hq) as Hb.
  assert (Hr : rescale2 c e = (c * 10 ^ Z.to_N (e + 2))%N).
  { unfold rescale2. destruct (Z.leb_spec (-2) e); [done|lia]. }
  pose proof (format_grouped_token c e s) as (Htok & _). rewrite Hr in Htok.
  assert (E : (c =? 0)%N = false) by (by apply N.eqb_neq).
  unfold generate_mock_pdfs.format_amount. cbn [eq_zero lt_zero].
  rewrite E. cbn [mbind result_bind negb andb].
  destruct s; cbn [andb mbind result_bind].
  - cbn [Decimal_abs neg]. rewrite E. cbn [negb].
    rewrite fix_finite_id; [| done | | unfold Etiny, Emin, prec; lia
                            | unfold Etop, Emax, prec; lia].
    + cbn [mbind result_bind]. f_equal. exact Htok.
    + apply (ndigits_le c 27).
      pose proof (N.pow_nonzero 10 (Z.to_N (e + 2))).
      change (N.of_nat 28) with 28%N. nia.
  - f_equal. rewrite <- Htok. by rewrite app_nil_r.
Qed.

Lemma generated_token_parses (s : bool) (c : N) (e : Z) :
  c <> 0%N -> -2 <= e -> (c * 10 ^ Z.to_N (e + 2) < 10 ^ 28)%N ->
  parse_amount
    (token (group3 (str_of_N (c * 10 ^ Z.to_N (e + 2) / 100)))
       (digit_char (c * 10 ^ Z.to_N (e + 2) / 10 mod 10))
       (digit_char (c * 10 ^ Z.to_N (e + 2) mod 10)) s)
  = Return (Finite s (c * 10 ^ Z.to_N (e + 2)) (-2)).
Proof.
  intros Hc He Hq.
  pose proof (format_grouped_token c e s) as (_ & Hne & Hbody & H1 & H2 & Hh).
  assert (Hr : rescale2 c e = (c * 10 ^ Z.to_N (e + 2))%N).
  { unfold rescale2. destruct (Z.leb_spec (-2) e); [done|lia]. }
  rewrite Hr in *. rewrite parse_amount_token, Hh by done.
  destruct s; [|done]. rewrite neg_small by done.
  pose proof (N.pow_nonzero 10 (Z.to_N (e + 2))).
  destruct (N.eqb_spec (c * 10 ^ Z.to_N (e + 2)) 0); [nia|done].
Qed.

(** X15: what the generator writes, the extractor reads back.  For an amount
    of whole cents other than zero, below 10^26, the text
    [generate_mock_pdfs.format_amount] produces (thousands separators, credit
    suffix for a negative amount) is parsed by [parse_amount] into the same
    amount, written with two decimals. *)
Theorem generated_amount_parses (s : bool) (c : N) (e : Z) :
  c <> 0%N -> -2 <= e -> (c * 10 ^ Z.to_N (e + 2) < 10 ^ 28)%N ->
  exists tok,
    generate_mock_pdfs.format_amount (Finite s c e) = Return tok
    /\ parse_amount tok = Return (Finite s (c * 10 ^ Z.to_N (e + 2)) (-2)).
Proof.
  intros Hc He Hq. eexists. split; [by apply generated_token|].
  by apply generated_token_parses.
Qed.

Lemma generated_amount_parses_witness :
  exists tok,
    generate_mock_pdfs.format_amount (Finite true 12345675 (-1)) = Return tok
    /\ parse_amount tok
       = Return (Finite true (12345675 * 10 ^ Z.to_N (-1 + 2)) (-2)).
Proof.
  apply (generated_amount_parses true 12345675 (-1)); [done|lia|].
  vm_compute. reflexivity.
Defined.

Lemma group_from_right_length (rds : list ascii) (k : nat) :
  (length (group_from_right rds k) <= 2 * length rds)%nat.
Proof.
  revert k. induction rds as [|d rds IH]; intros k; simpl; [lia|].
  destruct (k =? 3)%nat; simpl.
  - specialize (IH 1%nat). lia.
  - specialize (IH (S k)). lia.
Qed.

Lemma format_amount_whole_cents (d : Decimal) :
  whole_cents d = true ->
  exists tok, generate_mock_pdfs.format_amount d = Return tok
              /\ (length tok <= 61)%nat /\ forallb not_newline tok = true.
Proof.
  destruct d as [s c e| |]; [|done|done]. cbn [whole_cents].
  rewrite andb_true_iff, Z.leb_le, N.ltb_lt. intros [He Hq].
  destruct (N.eq_dec c 0%N) as [->|Hc].
  { exists (".00" : list ascii). split; [done|]. split; [simpl; lia|done]. }
  eexists. split; [by apply generated_token|].
  pose proof (format_grouped_token c e s) as (_ & _ & Hbody & H1 & H2 & _).
  assert (Hr : rescale2 c e = (c * 10 ^ Z.to_N (e + 2))%N).
  { unfold rescale2. destruct (Z.leb_spec (-2) e); [done|lia]. }
  rewrite Hr in *. split; [|by apply token_not_newline].
  set (q := (c * 10 ^ Z.to_N (e + 2))%N) in *.
  unfold token, group3. rewrite length_app, length_rev.
  pose proof (group_from_right_length (rev (str_of_N (q / 100))) 0) as Hl.
  rewrite length_rev in Hl.
  assert (ndigits (q / 100) <= 28) as Hn.
  { apply (ndigits_le (q / 100) 27). change (N.of_nat 28) with 28%N.
    assert (q / 100 <= q)%N by (apply N.Div0.div_le_upper_bound; lia). lia. }
  unfold ndigits in Hn. destruct s; simpl; lia.
Qed.

Lemma label_length (label : list ascii) :
  In label TRANSACTION_TYPES -> (length label <= 14)%nat.
Proof. simpl. intros H. destruct_or!; try done; subst; simpl; lia. Qed.

(** X16: a transaction line of the generator is read back.  The line
    [generate_transaction_line] writes for a label and three amounts of whole
    cents, the gross one not zero, taken as a page, gives a record whose field
    of that label is the gross amount. *)
Theorem generated_line_is_extracted (label co : list ascii)
    (s : bool) (c : N) (e : Z) (commission net : Decimal) :
  In label TRANSACTION_TYPES ->
  c <> 0%N -> -2 <= e -> (c * 10 ^ Z.to_N (e + 2) < 10 ^ 28)%N ->
  whole_cents commission = true -> whole_cents net = true ->
  exists line r,
    generate_mock_pdfs.data_line label (Finite s c e) commission net
    = Return line
    /\ extract_page_data (Some line) co = Return (Some r)
    /\ field label r = Finite s (c * 10 ^ Z.to_N (e + 2)) (-2).
Proof.
  intros Hlab Hc He Hq Hcom Hnet.
  destruct (format_amount_whole_cents commission Hcom) as (ct & Hct & Hlc & _).
  destruct (format_amount_whole_cents net Hnet) as (nt & Hnt & Hln & _).
  assert (whole_cents (Finite s c e) = true) as Hg.
  { cbn [whole_cents]. rewrite andb_true_iff, Z.leb_le, N.ltb_lt. done. }
  destruct (format_amount_whole_cents _ Hg) as (gt & Hgt & Hlg & _).
  pose proof (generated_token s c e Hc He Hq) as Htok.
  rewrite Hgt in Htok. injection Htok as ->.
  pose proof (format_grouped_token c e s) as (_ & Hne & Hbody & H1 & H2 & _).
  assert (Hr : rescale2 c e = (c * 10 ^ Z.to_N (e + 2))%N).
  { unfold rescale2. destruct (Z.leb_spec (-2) e); [done|lia]. }
  rewrite Hr in *. set (q := (c * 10 ^ Z.to_N (e + 2))%N) in *.
  set (tok := token _ _ _ s) in *.
  set (rest := (("  " : list ascii) ++ ct ++ ("  " : list ascii) ++ nt
                 ++ ("  .00  .00  .00" : list ascii))%list).
  set (line := (label ++ ("  " : list ascii) ++ tok ++ rest)%list).
  destruct (first_line_wins_aux [] line rest label tok co)
    as (r & d & Hr' & Hd & Hf).
  - subst line rest. pose proof (label_length label Hlab).
    cbn [app]. repeat (rewrite ?length_app; cbn [length app list_ascii_of_string]).
    lia.
  - by left.
  - exists label, ("  " : list ascii), (group3 (str_of_N (q / 100))),
      (digit_char (q / 10 mod 10)), (digit_char (q mod 10)), s.
    by split_and!.
  - intros _ r. by subst rest.
  - intros pre1 pre2 tok' rest' Hsplit Hne'. by destruct pre1, pre2.
  - exists line, r. split_and!.
    + unfold generate_mock_pdfs.data_line. rewrite Hgt, Hct, Hnt.
      cbn [mbind result_bind]. reflexivity.
    + exact Hr'.
    + subst tok q. rewrite generated_token_parses in Hd by done. congruence.
Qed.

Lemma generated_line_is_extracted_witness :
  exists line r,
    generate_mock_pdfs.data_line "RETURN PREMIUM" (Finite true 15000 (-1))
      (Finite true 22500 (-2)) (Finite true 127500 (-2)) = Return line
    /\ extract_page_data (Some line) "Insurance Division 4" = Return (Some r)
    /\ field "RETURN PREMIUM"%string r
       = Finite true (15000 * 10 ^ Z.to_N (-1 + 2)) (-2).
Proof.
  apply (generated_line_is_extracted "RETURN PREMIUM" "Insurance Division 4"
           true 15000 (-1) (Finite true 22500 (-2)) (Finite true 127500 (-2)));
    [simpl; tauto|done|lia|vm_compute; reflexivity|reflexivity|reflexivity].
Defined.

Lemma match_at_not_initial (prev : option ascii) (b : ascii) (s : list ascii) :
  not_initial b = true -> match_at LINE_PATTERN prev (b :: s) = None.
Proof.
  intros Hb.
  destruct (match_at LINE_PATTERN prev (b :: s)) as [[rest m]|] eqn:E; [|done].
  apply line_shape in E
    as (label & ws & body & d1 & d2 & credit & Hlab & _ & _ & _ & _ & _ & _ & H & _).
  unfold not_initial in Hb. apply negb_true_iff in Hb.
  assert (Hinit : label_initial b = true); [|congruence].
  simpl in Hlab. destruct_or!; try done; subst label; cbn in H;
    injection H as -> _; reflexivity.
Qed.

Lemma startswith_app (l tail label x : list ascii) :
  forallb not_newline label = true ->
  tail = [] \/ (exists more, tail = newline :: more) ->
  l ++ tail = label ++ x -> startswith l label = true.
Proof.
  intros Hlab Htail. revert label Hlab.
  induction l as [|a l IH]; intros [|c label] Hlab H; try done.
  - cbn [app] in H. destruct Htail as [->|[more ->]]; [done|].
    injection H as <- _. cbn [forallb] in Hlab. unfold not_newline in Hlab.
    by rewrite ascii_eqb_refl in Hlab.
  - cbn [app] in H. injection H as -> H. cbn [startswith].
    rewrite ascii_eqb_refl. cbn [forallb] in Hlab.
    apply andb_true_iff in Hlab as [_ Hlab]. by apply IH.
Qed.

Lemma heading_unmatched (prev : option ascii) (l tail : list ascii) :
  heading l = true ->
  tail = [] \/ (exists more, tail = newline :: more) ->
  match_at LINE_PATTERN prev (l ++ tail) = None.
Proof.
  intros Hh Htail.
  destruct (match_at LINE_PATTERN prev (l ++ tail)) as [[rest m]|] eqn:E; [|done].
  apply line_shape in E
    as (label & ws & body & d1 & d2 & credit & Hlab & _ & _ & _ & _ & _ & _ & H & _).
  apply (startswith_app _ _ _ _ (label_not_newline label Hlab) Htail) in H.
  unfold heading in Hh. apply andb_true_iff in Hh as [Hh _].
  rewrite forallb_forall in Hh. specialize (Hh label Hlab).
  by rewrite H in Hh.
Qed.

Lemma zero_line_unmatched (prev : option ascii) (label tail : list ascii) :
  In label TRANSACTION_TYPES ->
  match_at LINE_PATTERN prev (generate_mock_pdfs.zero_line label ++ tail) = None.
Proof.
  intros Hlab. unfold generate_mock_pdfs.zero_line. rewrite <- app_assoc.
  by apply (first_field_must_start_with_digit_aux prev label
              [" "; " "]%char
              (("00  .00  .00  .00  .00  .00" : list ascii) ++ tail) "."%char).
Qed.

Lemma zero_line_not_newline (label : list ascii) :
  In label TRANSACTION_TYPES ->
  forallb not_newline (generate_mock_pdfs.zero_line label) = true.
Proof.
  intros Hlab. unfold generate_mock_pdfs.zero_line.
  by rewrite forallb_app, label_not_newline.
Qed.

Lemma zero_page_line_scan (prev : option ascii) (l tail : list ascii) :
  zero_page_line l ->
  tail = [] \/ (exists more, tail = newline :: more) ->
  scan_all prev (l ++ tail) = scan_all (prev_after prev l) tail.
Proof.
  intros Hl Htail.
  assert (forallb not_newline l = true
          /\ forall prev', match_at LINE_PATTERN prev' (l ++ tail) = None)
    as [Hnl Hnone].
  { destruct Hl as [Hh|(label & Hlab & ->)].
    - split; [|intros; by apply heading_unmatched].
      unfold heading in Hh. by apply andb_true_iff in Hh as [_ ?].
    - split; [by apply zero_line_not_newline|].
      intros. by apply zero_line_unmatched. }
  destruct l as [|c w]; [done|].
  specialize (Hnone prev). cbn [app] in *. cbn [scan_all]. rewrite Hnone.
  cbn [forallb] in Hnl. apply andb_true_iff in Hnl as [Hc Hw].
  by rewrite scan_all_dead by (by apply chain_not_newline).
Qed.

Lemma zero_page_scan (lines : list (list ascii)) (prev : option ascii) :
  Forall zero_page_line lines -> scan_all prev (join [newline] lines) = [].
Proof.
  intros H. revert prev. induction H as [|l ls Hl Hls IH]; intros prev; [done|].
  destruct ls as [|l2 ls].
  - cbn [join]. rewrite <- (app_nil_r l), zero_page_line_scan by auto. done.
  - change (join [newline] (l :: l2 :: ls))
      with (l ++ newline :: join [newline] (l2 :: ls)).
    rewrite zero_page_line_scan by eauto. cbn [scan_all].
    rewrite match_at_not_initial by done. apply IH.
Qed.

(** X17: a page of zeros gives no record.  A page text made of headings
    (lines that begin with no transaction label) and of the zero lines the
    generator writes, joined by newlines, has no match of the line pattern:
    [extract_page_data] returns [None] for it. *)
Theorem generated_zero_page_yields_no_record
    (lines : list (list ascii)) (co : list ascii) :
  Forall zero_page_line lines ->
  extract_page_data (Some (join [newline] lines)) co = Return None.
Proof.
  intros H. unfold extract_page_data.
  destruct (join [newline] lines) as [|c text] eqn:E; [done|].
  rewrite <- E, finditer_scan_all, zero_page_scan by done. cbn [collect].
  cbn [mbind result_bind]. by rewrite decide_True.
Qed.

Lemma generated_zero_page_yields_no_record_witness :
  extract_page_data
    (Some (join [newline]
             [ "TENNESSEE DIVISION" : list ascii;
               "DIRECT BILLED" : list ascii;
               generate_mock_pdfs.zero_line "NEW POLICIES";
               generate_mock_pdfs.zero_line "RETURN PREMIUM";
               "AGENCY BILLED" : list ascii;
               generate_mock_pdfs.zero_line "CANCELLATIONS" ]))
    "Insurance Division 4" = Return None.
Proof.
  apply generated_zero_page_yields_no_record.
  repeat (constructor;
          [solve [ by left
                 | right; eexists; split; [|reflexivity]; simpl; tauto ]|]).
  constructor.
Defined.
